(** * YouTube chapter generator: a shallow embedding of [main.py]

    The service fetches the transcript of a video, asks a generative model
    for a draft chapter list, asks it again to refine the draft, and answers
    with both lists.  The embedding follows the Python source function by
    function.  Strings are [string] (code points below 256), exceptions are
    values of [exn] threaded through the [result] monad, and the two external
    collaborators (transcript provider, generative model) are the fields of a
    [World] record. *)

From Stdlib Require Import String Ascii List ZArith QArith Qround Qabs Qpower.
From Stdlib Require Import Lia Lqa Bool.
From Stdlib Require Import DecimalString DecimalN DecimalPos.
Import ListNotations.

Local Open Scope string_scope.
Local Open Scope Z_scope.

(** ** Python exceptions and the error monad *)

(** The exception classes the program can see.  All of them derive from
    [Exception]; [ExternalError] stands for whatever the transcript provider
    or the model client raises, with a flag telling whether its class derives
    from [ValueError]. *)
Inductive exn : Type :=
| ValueError (msg : string)
| OverflowError (msg : string)
| IndexError (msg : string)
| StopIteration
| HTTPException (status_code : Z) (detail : string)
| ExternalError (is_value_error : bool) (msg : string).

Inductive result (A : Type) : Type :=
| Ok (a : A)
| Raise (e : exn).
Arguments Ok {A} a.
Arguments Raise {A} e.

Definition bind {A B : Type} (m : result A) (k : A -> result B) : result B :=
  match m with
  | Ok a => k a
  | Raise e => Raise e
  end.

Notation "x <- m ;; k" := (bind m (fun x => k))
  (at level 61, m at next level, right associativity).
Notation "' pat <- m ;; k" := (bind m (fun x => match x with pat => k end))
  (at level 61, pat pattern, m at next level, right associativity).

(** [try: body except Exception as e: handler e]. *)
Definition try_except {A : Type} (body : result A) (handler : exn -> result A)
  : result A :=
  match body with
  | Ok a => Ok a
  | Raise e => handler e
  end.

(** [isinstance(e, ValueError)]. *)
Definition is_ValueError (e : exn) : bool :=
  match e with
  | ValueError _ => true
  | ExternalError b _ => b
  | _ => false
  end.

(** [str(e)].  What [str] gives for an [HTTPException] depends on the
    installed web framework, so it is a parameter. *)
Definition exn_str (http_str : Z -> string -> string) (e : exn) : string :=
  match e with
  | ValueError msg => msg
  | OverflowError msg => msg
  | IndexError msg => msg
  | StopIteration => ""
  | HTTPException status detail => http_str status detail
  | ExternalError _ msg => msg
  end.

(** ** Python string and list primitives *)

Module PyStr.

(** [s.startswith(p)]. *)
Fixpoint starts_with (p s : string) : bool :=
  match p, s with
  | EmptyString, _ => true
  | String _ _, EmptyString => false
  | String a p', String b s' => Ascii.eqb a b && starts_with p' s'
  end.

(** [s[n:]]. *)
Fixpoint drop (n : nat) (s : string) : string :=
  match n, s with
  | O, _ => s
  | S _, EmptyString => EmptyString
  | S n', String _ s' => drop n' s'
  end.

(** [sub in s]. *)
Fixpoint contains (sub s : string) : bool :=
  starts_with sub s ||
  match s with
  | EmptyString => false
  | String _ s' => contains sub s'
  end.

(** [s.partition(sep)] when [sep] occurs: the text before the leftmost
    occurrence and the text after it. *)
Fixpoint cut (sep s : string) : option (string * string) :=
  if starts_with sep s then Some (EmptyString, drop (String.length sep) s)
  else
    match s with
    | EmptyString => None
    | String c s' =>
        match cut sep s' with
        | Some (a, b) => Some (String c a, b)
        | None => None
        end
    end.

(** The loop of [str.split]: cut at the leftmost occurrence until
    [maxsplit] cuts were made ([-1]: no limit) or no occurrence is left.
    The separators of this program are non-empty literals, so every cut
    shortens the text and [fuel] above its length is never used up. *)
Fixpoint split_loop (fuel : nat) (sep : string) (maxsplit : Z) (s : string)
  : list string :=
  match fuel with
  | O => [s]
  | S fuel' =>
      if maxsplit =? 0 then [s]
      else
        match cut sep s with
        | None => [s]
        | Some (a, b) => a :: split_loop fuel' sep (maxsplit - 1) b
        end
  end.

(** [s.split(sep, maxsplit)]. *)
Definition split_max (sep : string) (maxsplit : Z) (s : string) : list string :=
  split_loop (S (String.length s)) sep maxsplit s.

(** [s.split(sep)]. *)
Definition split (sep s : string) : list string := split_max sep (-1) s.

(** [c.isspace()] on the code points below 256: TAB, LF, VT, FF, CR, the
    four separators FS, GS, RS, US, the space, NEL and the no-break space. *)
Definition isspace (c : ascii) : bool :=
  let n := nat_of_ascii c in
  ((9 <=? n) && (n <=? 13) || (28 <=? n) && (n <=? 32)
   || (n =? 133) || (n =? 160))%nat.

(** [s.lstrip()]. *)
Fixpoint lstrip (s : string) : string :=
  match s with
  | EmptyString => EmptyString
  | String c s' => if isspace c then lstrip s' else s
  end.

(** [s.rstrip()]. *)
Fixpoint rstrip (s : string) : string :=
  match s with
  | EmptyString => EmptyString
  | String c s' =>
      match rstrip s' with
      | EmptyString => if isspace c then EmptyString else String c EmptyString
      | r => String c r
      end
  end.

(** [s.strip()]. *)
Definition strip (s : string) : string := lstrip (rstrip s).

(** [sep.join(parts)]. *)
Fixpoint join (sep : string) (parts : list string) : string :=
  match parts with
  | [] => EmptyString
  | [x] => x
  | x :: rest => x ++ sep ++ join sep rest
  end.

(** [l[i]] for [i >= 0]. *)
Definition getitem {A : Type} (l : list A) (i : nat) : result A :=
  match nth_error l i with
  | Some x => Ok x
  | None => Raise (IndexError "list index out of range")
  end.

End PyStr.

(** ** Python floats and [int] formatting *)

(** A float is a finite value, an infinity or NaN.  A finite float is carried
    by the rational it denotes ([is_binary64] tells the rationals that are
    floats; the sign of a zero is not carried, [int] and the formatting do
    not see it).  Arithmetic is that of binary64: the exact result rounded
    to the nearest float, ties to the even mantissa. *)
Inductive pyfloat : Type :=
| Finite (q : Q)
| Infinite (negative : bool)
| NaN.

(** [2 ** e]. *)
Definition pow2 (e : Z) : Q := Qpower 2 e.

(** The exponent [e] with [2 ** e <= a < 2 ** (e + 1)], for [a > 0]. *)
Definition floor_log2 (a : Q) : Z :=
  let e0 := Z.log2 (Qnum a) - Z.log2 (Zpos (Qden a)) in
  if Qle_bool (pow2 e0) a then e0 else e0 - 1.

(** The nearest integer, a tie going to the even one. *)
Definition round_half_even (x : Q) : Z :=
  let f := Qfloor x in
  match (x - inject_Z f ?= 1 # 2)%Q with
  | Lt => f
  | Gt => f + 1
  | Eq => if Z.even f then f else f + 1
  end.

(** The binary64 rounding of an exact result: 53 bits of mantissa, and a
    unit in the last place never below [2 ** -1074].  None of its uses below
    can leave the range of the finite floats. *)
Definition round_binary64 (q : Q) : Q :=
  let r := Qred q in
  if Qeq_bool r 0 then 0%Q
  else
    let a := Qabs r in
    let u := Z.max (floor_log2 a - 52) (-1074) in
    let v := (inject_Z (round_half_even (a / pow2 u)) * pow2 u)%Q in
    Qred (if Qle_bool 0 r then v else (- v)%Q).

(** [a < b]. *)
Definition Qlt_bool (a b : Q) : bool := negb (Qle_bool b a).

(** The rationals that are finite binary64 values. *)
Definition is_binary64 (q : Q) : bool :=
  Qeq_bool (round_binary64 q) q && Qlt_bool (Qabs q) (pow2 1024).

(** C's [fmod]: the exact remainder, with the sign of [x]. *)
Definition fmod (x y : Q) : Q :=
  (x - y * inject_Z (if Qle_bool 0 (x / y) then Qfloor (x / y) else Qceiling (x / y)))%Q.

(** [vx % wx] on finite floats, [wx] not zero, as the interpreter computes
    it: [fmod], moved into the sign of [wx]. *)
Definition float_rem (vx wx : Q) : Q :=
  let rest := fmod vx wx in
  if Qeq_bool rest 0 then 0%Q
  else if xorb (Qlt_bool wx 0) (Qlt_bool rest 0) then round_binary64 (rest + wx)
       else rest.

(** [vx // wx] on finite floats, [wx] not zero, as the interpreter computes
    it: the rounded quotient of [vx - fmod(vx, wx)] by [wx], one less when
    the remainder was moved, snapped to the nearest integral value. *)
Definition float_floor_div (vx wx : Q) : Q :=
  let rest := fmod vx wx in
  let div := round_binary64 (round_binary64 (vx - rest) / wx) in
  let div :=
    if Qeq_bool rest 0 then div
    else if xorb (Qlt_bool wx 0) (Qlt_bool rest 0) then round_binary64 (div - 1)
         else div in
  if Qeq_bool div 0 then 0%Q
  else
    let floordiv := inject_Z (Qfloor div) in
    if Qlt_bool (1 # 2) (round_binary64 (div - floordiv))
    then round_binary64 (floordiv + 1)
    else floordiv.

(** [x // n] for a positive [int] literal [n]. *)
Definition float_floordiv (x : pyfloat) (n : Z) : pyfloat :=
  match x with
  | Finite q => Finite (float_floor_div q (inject_Z n))
  | _ => NaN
  end.

(** [x % n] for a positive [int] literal [n]. *)
Definition float_mod (x : pyfloat) (n : Z) : pyfloat :=
  match x with
  | Finite q => Finite (float_rem q (inject_Z n))
  | _ => NaN
  end.

(** [int(x)]: truncation toward zero; infinities and NaN raise. *)
Definition int_of_float (x : pyfloat) : result Z :=
  match x with
  | Finite q => Ok (if Qle_bool 0 q then Qfloor q else Qceiling q)
  | Infinite _ => Raise (OverflowError "cannot convert float infinity to integer")
  | NaN => Raise (ValueError "cannot convert float NaN to integer")
  end.

(** [str(n)] for [n >= 0]. *)
Definition decimal (n : Z) : string := NilZero.string_of_uint (N.to_uint (Z.to_N n)).

(** [s.rjust(width, '0')]. *)
Definition zero_fill (width : nat) (s : string) : string :=
  string_of_list_ascii (repeat "0"%char (width - String.length s)) ++ s.

(** [f"{n:02}"]: sign-aware zero padding to width 2. *)
Definition format_02 (n : Z) : string :=
  if n <? 0 then "-" ++ zero_fill 1 (decimal (- n))
  else zero_fill 2 (decimal n).

(** ** The program *)

(** [class Chapter(BaseModel)], also the dicts the two passes build. *)
Record Chapter : Type := mkChapter {
  timestamp : string;
  title : string
}.

(** [class VideoRequest(BaseModel)]. *)
Record VideoRequest : Type := mkVideoRequest {
  url : string;
  language : option string
}.

(** [extract_video_id]. *)
Definition extract_video_id (url : string) : result string :=
  if PyStr.contains "v=" url then
    after <- PyStr.getitem (PyStr.split "v=" url) 1 ;;
    PyStr.getitem (PyStr.split "&" after) 0
  else if PyStr.contains "youtu.be/" url then
    after <- PyStr.getitem (PyStr.split "youtu.be/" url) 1 ;;
    PyStr.getitem (PyStr.split "?" after) 0
  else Raise (ValueError "Invalid YouTube URL").

(** [format_time]. *)
Definition format_time (seconds : pyfloat) : result string :=
  minutes <- int_of_float (float_floordiv seconds 60) ;;
  seconds <- int_of_float (float_mod seconds 60) ;;
  Ok (format_02 minutes ++ ":" ++ format_02 seconds).

(** *** The external collaborators *)

(** One entry of a fetched transcript, as the provider gives it. *)
Record RawEntry : Type := mkRawEntry {
  raw_start : pyfloat;
  raw_duration : pyfloat;
  raw_text : string
}.

(** One language track of a video: its code and what [fetch()] gives. *)
Record Track : Type := mkTrack {
  language_code : string;
  fetch : result (list RawEntry)
}.

(** What [list_transcripts] returns: the tracks in iteration order, and the
    exception [find_transcript] raises when none of the asked codes is
    listed. *)
Record TranscriptList : Type := mkTranscriptList {
  tracks : list Track;
  no_transcript_found : list string -> exn
}.

(** [generation_config] of a [GenerativeModel]. *)
Record GenerationConfig : Type := mkGenerationConfig {
  model_name : string;
  temperature : Q;
  top_p : Q;
  top_k : Z
}.

(** Everything outside the program: the transcript provider, the model
    ([model.generate_content(prompt)] followed by [response.text]) and the
    framework's [str] of an [HTTPException]. *)
Record World : Type := mkWorld {
  list_transcripts : string -> result TranscriptList;
  generate_content : GenerationConfig -> string -> result string;
  http_exception_str : Z -> string -> string
}.

(** The search of [find_transcript]: the asked codes are tried in turn, and
    a code is served by the first track that carries it. *)
Fixpoint find_among (ts : list Track) (codes : list string) : option Track :=
  match codes with
  | [] => None
  | code :: codes' =>
      match find (fun t => String.eqb (language_code t) code) ts with
      | Some t => Some t
      | None => find_among ts codes'
      end
  end.

(** [transcript_list.find_transcript(codes)]. *)
Definition find_transcript (transcript_list : TranscriptList) (codes : list string)
  : result Track :=
  match find_among (tracks transcript_list) codes with
  | Some t => Ok t
  | None => Raise (no_transcript_found transcript_list codes)
  end.

(** [x in l] for a list of strings. *)
Definition str_in_list (x : string) (l : list string) : bool :=
  existsb (String.eqb x) l.

(** [next(iter(l))]. *)
Definition next_iter {A : Type} (l : list A) : result A :=
  match l with
  | [] => Raise StopIteration
  | x :: _ => Ok x
  end.

(** [not language_code]: [None] and the empty string are falsy. *)
Definition not_supplied (language_code : option string) : bool :=
  match language_code with
  | None => true
  | Some s => String.eqb s ""
  end.

(** *** Transcript fetching *)

(** An entry of the formatted transcript: the dict with keys [time], [text],
    [start] and [duration]. *)
Record Entry : Type := mkEntry {
  time : string;
  text : string;
  start : pyfloat;
  duration : pyfloat
}.

(** The list comprehension of [fetch_transcript]. *)
Fixpoint format_entries (transcript : list RawEntry) : result (list Entry) :=
  match transcript with
  | [] => Ok []
  | entry :: rest =>
      t <- format_time (raw_start entry) ;;
      rest' <- format_entries rest ;;
      Ok (mkEntry t (raw_text entry) (raw_start entry) (raw_duration entry) :: rest')
  end.

(** The language the fetcher settles on (lines 70 to 76). *)
Definition select_language (transcript_list : TranscriptList)
    (requested : option string) : result string :=
  if not_supplied requested then
    if str_in_list "en" (map language_code (tracks transcript_list))
    then Ok "en"
    else t <- next_iter (tracks transcript_list) ;; Ok (language_code t)
  else
    match requested with
    | Some code => Ok code
    | None => Ok ""
    end.

(** [fetch_transcript]. *)
Definition fetch_transcript (w : World) (video_url : string)
    (language_code : option string) : result (list Entry * string) :=
  try_except
    (video_id <- extract_video_id video_url ;;
     transcript_list <- list_transcripts w video_id ;;
     language_code <- select_language transcript_list language_code ;;
     track <- find_transcript transcript_list [language_code] ;;
     transcript <- fetch track ;;
     formatted_transcript <- format_entries transcript ;;
     Ok (formatted_transcript, language_code))
    (fun e =>
       Raise (HTTPException 404
                ("Error fetching transcript: " ++ exn_str (http_exception_str w) e))).

(** *** The two model passes *)

(** The transcript as the prompts carry it: one line [[MM:SS] text] per
    entry. *)
Definition transcript_with_timestamps (transcript : list Entry) : string :=
  PyStr.join (String "010"%char "")
    (map (fun entry => "[" ++ time entry ++ "] " ++ text entry) transcript).

Definition draft_config : GenerationConfig :=
  mkGenerationConfig "gemini-2.0-flash" (3 # 10) (95 # 100) 40.

Definition refine_config : GenerationConfig :=
  mkGenerationConfig "gemini-2.0-flash" (1 # 10) (95 # 100) 40.

Definition draft_prompt (transcript : list Entry) : string :=
  "
        You are a video summarization assistant that generates clear and concise chapter timestamps for YouTube videos. Your goal is to analyze a provided transcript and the total video duration, and then identify only the major segments of the video in a balanced way. Follow these instructions exactly:
        1. Input Details:
        - You will receive the full transcript of a YouTube video along with its total duration (e.g., 20:00).
        - If the transcript is in a non-English language, first translate it to English before processing.
        2. Chapter Creation:
        - Identify only significant topic shifts or major modules that represent a clear, substantial change in content.
        - Avoid creating chapters for minor transitions or repetitive content. Group similar or consecutive content into one chapter.
        - Generate a balanced number of chapters relative to the video length. For a 20-minute video, aim for between 5 to 8 chapters.
        - Ensure chapters are evenly distributed across the entire video duration so that early, middle, and later segments are all represented.
        - Do not create any chapter timestamps beyond the total video duration. All timestamps must be within the video's length.
        3. Timestamp and Output Format:
        - Each chapter must include:
            - An approximate timestamp in the format MM:SS (e.g., 03:15) that reflects the start time of that major segment.
            - A brief, descriptive title summarizing the key topic of that segment.
        - List the chapters in sequential order with clearly formatted timestamps (MM:SS).
        4. Additional Guidelines:
        - Ensure the final chapter reflects the concluding segment of the video, and do not extend beyond the video's total duration.
        - Focus on capturing only the essential highlights and avoid over-fragmentation.
        - Provide a final, easy-to-follow list of chapters that covers the entire video in a balanced manner.

        Using these guidelines, generate a set of chapters that accurately represents the key points in the transcript without exceeding the video's actual length.
        
        TRANSCRIPT WITH TIMESTAMPS:
        " ++ transcript_with_timestamps transcript ++ "  # Limiting transcript length to avoid token limits
        
        OUTPUT FORMAT (ONLY):
        00:00 - Introduction
        MM:SS - Chapter Title
        MM:SS - Chapter Title
        ...
        ".

Definition initial_chapters_formatted (initial_chapters : list Chapter) : string :=
  PyStr.join (String "010"%char "")
    (map (fun chapter => timestamp chapter ++ " - " ++ title chapter) initial_chapters).

Definition refine_prompt (initial_chapters : list Chapter) (transcript : list Entry)
  : string :=
  "
        You are an advanced video summarization assistant specializing in refining chapter timestamps for YouTube videos. Your task is to take the preliminary chapter/timestamp list (generated by another AI) along with the complete transcript of the video, and produce a final, optimized set of chapters. Follow these guidelines:
        1. Input:
        - You will receive the initial chapters and timestamps (in MM:SS format) that were generated.
        - You will also receive the full transcript of the video.
        - If the transcript is in a non-English language, first translate it to English before processing.
        2. Analysis and Comparison:
        - Analyze the preliminary chapter list in the context of the transcript.
        - Identify and remove any chapters that are unnecessary, redundant, or overly granular.
        - Merge chapters that cover similar or consecutive topics, ensuring that each chapter reflects a significant topic shift.
        - Ensure that the chapters cover the entire video and are evenly distributed.
        3. Final Chapter Generation:
        - Generate a final set of chapters with timestamps in MM:SS format that represent the major segments of the video.
        - For a 20-minute video, aim for a balanced number of chapters (typically between 5 to 8).
        - Ensure no chapter timestamp extends beyond the total video duration.
        - Provide concise and descriptive titles for each chapter that clearly summarize the segment's content.
        4. Output:
        - Present the final chapter list in sequential order with each chapter's timestamp and title.
        - The final list should be clear, balanced, and easy for viewers to navigate.

        Using these guidelines, generate the final, optimized set of chapters and timestamps that best represent the video content.        
        INITIAL CHAPTERS:
        " ++ initial_chapters_formatted initial_chapters ++ "
        
        TRANSCRIPT WITH TIMESTAMPS:
        "
  ++ transcript_with_timestamps transcript ++ "
        
        OUTPUT FORMAT (ONLY):
        00:00 - Introduction
        MM:SS - Chapter Title
        MM:SS - Chapter Title
        ...
        ".

(** The parsing loop of [generate_chapters_with_gemini] (lines 164 to 169),
    with [chapters] the list built so far. *)
Fixpoint draft_loop (chapters_text : list string) (chapters : list Chapter)
  : result (list Chapter) :=
  match chapters_text with
  | [] => Ok chapters
  | chapter :: rest =>
      looks_like_chapter <-
        (if PyStr.contains " - " chapter then
           head <- PyStr.getitem (PyStr.split " - " chapter) 0 ;;
           Ok (PyStr.contains ":" head)
         else Ok false) ;;
      if looks_like_chapter : bool then
        let parts := PyStr.split_max " - " 1 chapter in
        part0 <- PyStr.getitem parts 0 ;;
        let timestamp := PyStr.strip part0 in
        part1 <- PyStr.getitem parts 1 ;;
        let title := PyStr.strip part1 in
        draft_loop rest (chapters ++ [mkChapter timestamp title])
      else draft_loop rest chapters
  end.

(** Lines 161 to 171: from the model's text to the draft chapters. *)
Definition parse_draft (response_text : string) : result (list Chapter) :=
  let chapters_text := PyStr.split (String "010"%char "") (PyStr.strip response_text) in
  draft_loop chapters_text [].

(** [generate_chapters_with_gemini]. *)
Definition generate_chapters_with_gemini (w : World) (transcript : list Entry)
  : result (list Chapter) :=
  try_except
    (response_text <- generate_content w draft_config (draft_prompt transcript) ;;
     parse_draft response_text)
    (fun e =>
       Raise (HTTPException 500
                ("Error generating chapters with AI: "
                 ++ exn_str (http_exception_str w) e))).

(** The parsing loop of [refine_chapters_with_gemini] (lines 248 to 253). *)
Fixpoint refine_loop (refined_chapters_text : list string)
    (refined_chapters : list Chapter) : result (list Chapter) :=
  match refined_chapters_text with
  | [] => Ok refined_chapters
  | chapter :: rest =>
      looks_like_chapter <-
        (if PyStr.contains " - " chapter then
           head <- PyStr.getitem (PyStr.split " - " chapter) 0 ;;
           Ok (PyStr.contains ":" head)
         else Ok false) ;;
      if looks_like_chapter : bool then
        let parts := PyStr.split_max " - " 1 chapter in
        part0 <- PyStr.getitem parts 0 ;;
        let timestamp := PyStr.strip part0 in
        part1 <- PyStr.getitem parts 1 ;;
        let title := PyStr.strip part1 in
        refine_loop rest (refined_chapters ++ [mkChapter timestamp title])
      else refine_loop rest refined_chapters
  end.

(** Lines 245 to 255: from the model's text to the refined chapters. *)
Definition parse_refined (response_text : string) : result (list Chapter) :=
  let refined_chapters_text :=
    PyStr.split (String "010"%char "") (PyStr.strip response_text) in
  refine_loop refined_chapters_text [].

(** [refine_chapters_with_gemini]. *)
Definition refine_chapters_with_gemini (w : World) (initial_chapters : list Chapter)
    (transcript : list Entry) : result (list Chapter) :=
  try_except
    (response_text <-
       generate_content w refine_config (refine_prompt initial_chapters transcript) ;;
     parse_refined response_text)
    (fun e =>
       Raise (HTTPException 500
                ("Error refining chapters with AI: "
                 ++ exn_str (http_exception_str w) e))).

(** *** The request handler *)

(** The dict the handler returns on success. *)
Record ChapterResponse : Type := mkChapterResponse {
  success : bool;
  video_id : string;
  detected_language : string;
  transcript : list Entry;
  full_text : string;
  initial_chapters : list Chapter;
  chapters : list Chapter
}.

(** [generate_chapters], the handler of [POST /generate_chapters]. *)
Definition generate_chapters (w : World) (request : VideoRequest)
  : result ChapterResponse :=
  match
    ('(transcript, detected_language) <-
       fetch_transcript w (url request) (language request) ;;
     let full_text := PyStr.join " " (map text transcript) in
     try_except
       (initial_chapters <- generate_chapters_with_gemini w transcript ;;
        refined_chapters <- refine_chapters_with_gemini w initial_chapters transcript ;;
        video_id <- extract_video_id (url request) ;;
        Ok (mkChapterResponse true video_id detected_language transcript full_text
              initial_chapters refined_chapters))
       (fun ai_error =>
          Raise (HTTPException 500
                   ("Error processing with AI: "
                    ++ exn_str (http_exception_str w) ai_error))))
  with
  | Ok response => Ok response
  | Raise e =>
      if is_ValueError e then
        Raise (HTTPException 400 (exn_str (http_exception_str w) e))
      else
        Raise (HTTPException 500
                 ("An unexpected error occurred: "
                  ++ exn_str (http_exception_str w) e))
  end.

(** *** What the client receives *)

(** The body of an HTTP answer: the JSON of the handler's dict, the JSON
    object with the single key [detail], or plain text. *)
Inductive Body : Type :=
| ChaptersBody (response : ChapterResponse)
| DetailBody (detail : string)
| TextBody (content : string).

Record HttpResponse : Type := mkHttpResponse {
  status : Z;
  body : Body
}.

(** [x] is neither an infinity nor NaN. *)
Definition is_finite (x : pyfloat) : bool :=
  match x with
  | Finite _ => true
  | _ => false
  end.

(** The dict can be rendered as JSON: the renderer refuses infinities and
    NaN, and the only floats of the dict are the starts and durations of
    the transcript. *)
Definition json_compliant (response : ChapterResponse) : bool :=
  forallb (fun entry => is_finite (start entry) && is_finite (duration entry))
    (transcript response).

(** The framework around the handler: a returned dict is sent with status
    200 when it can be rendered as JSON, an [HTTPException] with its own
    status and its detail, and anything else (an exception of another
    class, a dict the renderer refuses) as a plain 500. *)
Definition respond (outcome : result ChapterResponse) : HttpResponse :=
  match outcome with
  | Ok response =>
      if json_compliant response
      then mkHttpResponse 200 (ChaptersBody response)
      else mkHttpResponse 500 (TextBody "Internal Server Error")
  | Raise (HTTPException status_code detail) =>
      mkHttpResponse status_code (DetailBody detail)
  | Raise _ => mkHttpResponse 500 (TextBody "Internal Server Error")
  end.

(** [POST /generate_chapters] as the client sees it. *)
Definition post_generate_chapters (w : World) (request : VideoRequest)
  : HttpResponse :=
  respond (generate_chapters w request).

(** ** Vocabulary of the specification *)

(** [sub] is a substring of [s]. *)
Definition occurs (sub s : string) : Prop :=
  exists a b, s = a ++ sub ++ b.

(** [s] is [a], then the first occurrence of [sep], then [b]. *)
Definition first_cut (sep s a b : string) : Prop :=
  s = a ++ sep ++ b /\
  forall a' b', s = a' ++ sep ++ b' -> (String.length a <= String.length a')%nat.

(** [t] is the text of [s] before the first occurrence of [sep], or all of
    [s] when [sep] does not occur. *)
Definition text_before (sep s t : string) : Prop :=
  (exists rest, first_cut sep s t rest) \/ (~ occurs sep s /\ t = s).

(** Every character of [s] is whitespace. *)
Fixpoint all_space (s : string) : Prop :=
  match s with
  | EmptyString => True
  | String c s' => PyStr.isspace c = true /\ all_space s'
  end.

(** [t] is [s] with the whitespace at both ends removed. *)
Definition trimmed (s t : string) : Prop :=
  (exists l r, s = l ++ t ++ r /\ all_space l /\ all_space r) /\
  (forall c t', t = String c t' -> PyStr.isspace c = false) /\
  (forall t' c, t = t' ++ String c "" -> PyStr.isspace c = false).

(** The lines of a model response, as both passes take them: the response
    without the whitespace at its two ends, cut at every line feed. *)
Definition response_lines (response_text : string) : list string :=
  PyStr.split (String "010"%char "") (PyStr.strip response_text).

(** A line is kept when it contains [" - "] and the text before the first
    [" - "] contains a colon. *)
Definition conforming (line : string) : Prop :=
  occurs " - " line /\
  exists pre post, first_cut " - " line pre post /\ occurs ":" pre.

(** The chapters of a list of lines, in the words of the specification: a
    conforming line gives the chapter of its two trimmed halves, any other
    line gives nothing, and the order is that of the lines. *)
Inductive chapters_of_lines : list string -> list Chapter -> Prop :=
| chapters_nil : chapters_of_lines [] []
| chapters_keep line pre post ts ti rest cs :
    conforming line ->
    first_cut " - " line pre post ->
    trimmed pre ts -> trimmed post ti ->
    chapters_of_lines rest cs ->
    chapters_of_lines (line :: rest) (mkChapter ts ti :: cs)
| chapters_drop line rest cs :
    ~ conforming line ->
    chapters_of_lines rest cs ->
    chapters_of_lines (line :: rest) cs.

(** Plain concatenation of texts, with nothing in between. *)
Definition concat_texts (parts : list string) : string :=
  fold_right String.append "" parts.

(** The specification's time format: minutes and seconds of a non-negative
    rational, each left-padded with zeros to two digits. *)
Definition mm_ss (q : Q) : string :=
  let minutes := Qfloor (q / 60) in
  let seconds := Qfloor (q - 60 * inject_Z minutes) in
  zero_fill 2 (decimal minutes) ++ ":" ++ zero_fill 2 (decimal seconds).

(** The number a string of decimal digits denotes, leading zeros allowed;
    nothing for the empty string or for a string with another character. *)
Definition read_decimal (s : string) : option Z :=
  match s with
  | EmptyString => None
  | _ => option_map (fun d => Z.of_N (N.of_uint d)) (NilEmpty.uint_of_string s)
  end.

(** A chapter whose line ["timestamp - title"] reads back as itself: the
    timestamp has a colon, no line feed and no [" - "] (not even with the
    separator's first two characters), the title is not empty and has no
    line feed, and neither begins or ends with whitespace. *)
Definition well_formed (chapter : Chapter) : Prop :=
  occurs ":" (timestamp chapter) /\
  ~ occurs " - " (timestamp chapter ++ " -") /\
  ~ occurs (String "010"%char "") (timestamp chapter) /\
  PyStr.strip (timestamp chapter) = timestamp chapter /\
  title chapter <> "" /\
  ~ occurs (String "010"%char "") (title chapter) /\
  PyStr.strip (title chapter) = title chapter.

(** [s] does not begin with whitespace. *)
Definition first_ok (s : string) : Prop :=
  forall c t, s = String c t -> PyStr.isspace c = false.

(** [s] does not end with whitespace. *)
Definition last_ok (s : string) : Prop :=
  forall t c, s = t ++ String c "" -> PyStr.isspace c = false.

(** ** Sample worlds for the concrete runs *)

Definition sample_entries : list RawEntry :=
  [ mkRawEntry (Finite 0) (Finite (5 # 2)) "hello";
    mkRawEntry (Finite (65 # 1)) (Finite 4) "world" ].

Definition sample_tracks : TranscriptList :=
  mkTranscriptList
    [ mkTrack "de" (Ok []); mkTrack "en" (Ok sample_entries) ]
    (fun codes => ExternalError false ("No transcripts were found for " ++ PyStr.join ", " codes)).

Definition sample_http_str (status_code : Z) (detail : string) : string :=
  decimal status_code ++ ": " ++ detail.

(** Both passes succeed. *)
Definition sample_world : World :=
  mkWorld
    (fun _ => Ok sample_tracks)
    (fun config _ =>
       if Qeq_bool (temperature config) (3 # 10)
       then Ok ("00:00 - Introduction" ++ String "010"%char "Some remark"
                ++ String "010"%char "01:05 - Second part")
       else Ok "00:00 - Introduction")
    sample_http_str.

(** The draft succeeds, the refinement fails. *)
Definition refine_fails_world : World :=
  mkWorld
    (fun _ => Ok sample_tracks)
    (fun config _ =>
       if Qeq_bool (temperature config) (3 # 10)
       then Ok "00:00 - Introduction"
       else Raise (ExternalError false "quota exceeded"))
    sample_http_str.

(** The model answers with prose in both passes. *)
Definition narration_world : World :=
  mkWorld
    (fun _ => Ok sample_tracks)
    (fun _ _ => Ok "Random narration text")
    sample_http_str.

(** The provider lists no track at all. *)
Definition no_tracks_world : World :=
  mkWorld
    (fun _ => Ok (mkTranscriptList [] (fun _ => ExternalError false "no transcript")))
    (fun _ _ => Ok "00:00 - Introduction")
    sample_http_str.


(** The provider lists a German and a French track, no English one. *)
Definition no_english_tracks : TranscriptList :=
  mkTranscriptList
    [ mkTrack "de" (Ok sample_entries); mkTrack "fr" (Ok []) ]
    (fun _ => ExternalError false "no transcript").

Definition no_english_world : World :=
  mkWorld (fun _ => Ok no_english_tracks)
    (fun _ _ => Ok "00:00 - Introduction") sample_http_str.

(** The model fails in the draft pass already. *)
Definition draft_fails_world : World :=
  mkWorld (fun _ => Ok sample_tracks)
    (fun _ _ => Raise (ExternalError false "quota exceeded")) sample_http_str.

(** * Facts about the string primitives *)

Module StrFacts.
Import PyStr.

Lemma append_nil_r (s : string) : s ++ "" = s.
Proof. induction s as [|c s IH]; simpl; [reflexivity | now rewrite IH]. Qed.

Lemma append_assoc (a b c : string) : (a ++ b) ++ c = a ++ b ++ c.
Proof. induction a as [|x a IH]; simpl; [reflexivity | now rewrite IH]. Qed.

Lemma length_append (a b : string) :
  String.length (a ++ b) = (String.length a + String.length b)%nat.
Proof. induction a as [|x a IH]; simpl; [reflexivity | now rewrite IH]. Qed.

(** Two ways of cutting one string: the shorter left part is a prefix of
    the longer one. *)
Lemma append_split (a x c y : string) :
  a ++ x = c ++ y -> (String.length a <= String.length c)%nat ->
  exists m, c = a ++ m /\ x = m ++ y.
Proof.
  revert c. induction a as [|k a IH]; intros c E L.
  - exists c. split; [reflexivity | exact E].
  - destruct c as [|k' c]; simpl in L; [lia|].
    simpl in E. injection E as -> E.
    destruct (IH c E) as [m [-> ->]]; [lia|].
    exists m. split; reflexivity.
Qed.

Lemma append_inv_length (a x c y : string) :
  a ++ x = c ++ y -> String.length a = String.length c -> a = c /\ x = y.
Proof.
  intros E L. destruct (append_split a x c y E) as [m [Hc Hx]]; [lia|].
  subst c. rewrite length_append in L.
  destruct m; simpl in L; [|lia].
  rewrite append_nil_r. split; [reflexivity | exact Hx].
Qed.

Lemma starts_with_append (p t : string) : starts_with p (p ++ t) = true.
Proof.
  induction p as [|c p IH]; simpl; [reflexivity|].
  now rewrite Ascii.eqb_refl, IH.
Qed.

Lemma starts_with_drop (p s : string) :
  starts_with p s = true -> s = p ++ drop (String.length p) s.
Proof.
  revert s. induction p as [|c p IH]; intros s H; simpl.
  - reflexivity.
  - destruct s as [|d s]; simpl in H; [discriminate|].
    apply andb_prop in H. destruct H as [Hc Hs].
    apply Ascii.eqb_eq in Hc. subst d. simpl. f_equal. now apply IH.
Qed.

Lemma contains_unfold (sub s : string) :
  contains sub s =
  starts_with sub s || match s with EmptyString => false | String _ s' => contains sub s' end.
Proof. destruct s; reflexivity. Qed.

Lemma cut_unfold (sep s : string) :
  cut sep s =
  if starts_with sep s then Some (EmptyString, drop (String.length sep) s)
  else match s with
       | EmptyString => None
       | String c s' =>
           match cut sep s' with
           | Some (a, b) => Some (String c a, b)
           | None => None
           end
       end.
Proof. destruct s; reflexivity. Qed.

(** [sub in s] decides [occurs]. *)
Lemma contains_occurs (sub s : string) : contains sub s = true <-> occurs sub s.
Proof.
  split.
  - induction s as [|c s IH]; rewrite contains_unfold; intros H;
      apply orb_prop in H; destruct H as [H | H]; try discriminate.
    + exists "", (drop (String.length sub) ""). now apply starts_with_drop.
    + exists "", (drop (String.length sub) (String c s)). now apply starts_with_drop.
    + destruct (IH H) as [a [b ->]]. exists (String c a), b. reflexivity.
  - intros [a [b ->]]. induction a as [|c a IH]; rewrite contains_unfold.
    + simpl. now rewrite starts_with_append.
    + simpl in *. rewrite IH. apply orb_true_r.
Qed.

Lemma contains_false (sub s : string) : contains sub s = false <-> ~ occurs sub s.
Proof.
  rewrite <- contains_occurs. destruct (contains sub s); split; intros H;
    try reflexivity; try discriminate; try (intros H'; discriminate).
  exfalso. now apply H.
Qed.

(** [cut] and [in] agree on whether there is an occurrence. *)
Lemma cut_contains (sep s : string) :
  contains sep s = match cut sep s with Some _ => true | None => false end.
Proof.
  induction s as [|c s IH]; rewrite contains_unfold, cut_unfold.
  - destruct (starts_with sep ""); reflexivity.
  - destruct (starts_with sep (String c s)); simpl; [reflexivity|].
    rewrite IH. destruct (cut sep s) as [[a b]|]; reflexivity.
Qed.

(** [cut] finds the first occurrence. *)
Lemma cut_first (sep s a b : string) :
  cut sep s = Some (a, b) -> first_cut sep s a b.
Proof.
  revert a b. induction s as [|c s IH]; intros a b; rewrite cut_unfold.
  - destruct (starts_with sep "") eqn:E; [|discriminate].
    intros H. injection H as <- <-. split.
    + now apply starts_with_drop.
    + intros; simpl; lia.
  - destruct (starts_with sep (String c s)) eqn:E.
    + intros H. injection H as <- <-. split.
      * now apply starts_with_drop.
      * intros; simpl; lia.
    + destruct (cut sep s) as [[a0 b0]|] eqn:C; [|discriminate].
      intros H. injection H as <- <-.
      destruct (IH a0 b0 eq_refl) as [Hs Hmin]. split.
      * simpl. now rewrite <- Hs.
      * intros a' b' H'. destruct a' as [|c' a'].
        -- simpl in H'. rewrite H', starts_with_append in E. discriminate.
        -- simpl in H'. injection H' as _ H'. simpl.
           specialize (Hmin a' b' H'). lia.
Qed.

Lemma first_cut_unique (sep s a b a' b' : string) :
  first_cut sep s a b -> first_cut sep s a' b' -> a = a' /\ b = b'.
Proof.
  intros [E Hmin] [E' Hmin'].
  pose proof (Hmin a' b' E'). pose proof (Hmin' a b E).
  rewrite E in E'.
  destruct (append_inv_length a (sep ++ b) a' (sep ++ b') E') as [-> T]; [lia|].
  split; [reflexivity|].
  now destruct (append_inv_length sep b sep b' T eq_refl).
Qed.

Lemma first_cut_cut (sep s a b : string) :
  first_cut sep s a b -> cut sep s = Some (a, b).
Proof.
  intros H. destruct (cut sep s) as [[a0 b0]|] eqn:C.
  - apply cut_first in C. destruct (first_cut_unique _ _ _ _ _ _ C H) as [-> ->].
    reflexivity.
  - exfalso. pose proof (cut_contains sep s) as K. rewrite C in K.
    apply contains_false in K. apply K. destruct H as [-> _]. now exists a, b.
Qed.

(** *** [split] *)

Lemma split_loop_step (n : nat) (sep : string) (m : Z) (s : string) :
  m <> 0 ->
  split_loop (S n) sep m s =
  match cut sep s with
  | None => [s]
  | Some (a, b) => a :: split_loop n sep (m - 1) b
  end.
Proof.
  intros Hm. simpl. destruct (Z.eqb_spec m 0) as [E | _]; [contradiction | reflexivity].
Qed.

(** A cut with a non-empty separator leaves a strictly shorter text. *)
Lemma cut_shorter (sep s a b : string) :
  sep <> "" -> cut sep s = Some (a, b) ->
  (String.length b < String.length s)%nat.
Proof.
  intros Hsep C. apply cut_first in C. destruct C as [-> _].
  rewrite !length_append. destruct sep; [contradiction | simpl; lia].
Qed.

(** The fuel of [split_loop] does not matter once it exceeds the length of
    the text: the loop stops by itself. *)
Lemma split_loop_fuel (sep : string) (n1 n2 : nat) (m : Z) (s : string) :
  sep <> "" -> m < 0 ->
  (String.length s < n1)%nat -> (String.length s < n2)%nat ->
  split_loop n1 sep m s = split_loop n2 sep m s.
Proof.
  intros Hsep. revert n2 m s.
  induction n1 as [|n1 IH]; intros n2 m s Hm L1 L2; [lia|].
  destruct n2 as [|n2]; [lia|].
  rewrite !split_loop_step by lia.
  destruct (cut sep s) as [[a b]|] eqn:C; [|reflexivity].
  pose proof (cut_shorter sep s a b Hsep C).
  f_equal. apply IH; lia.
Qed.

(** The defining equation of [s.split(sep)]. *)
Lemma split_eq (sep s : string) :
  sep <> "" ->
  split sep s =
  match cut sep s with
  | None => [s]
  | Some (a, b) => a :: split sep b
  end.
Proof.
  intros Hsep. unfold split, split_max.
  rewrite split_loop_step by lia.
  destruct (cut sep s) as [[a b]|] eqn:C; [|reflexivity].
  pose proof (cut_shorter sep s a b Hsep C).
  f_equal.
  transitivity (split_loop (S (String.length b)) sep (-2) b).
  - apply split_loop_fuel; try assumption; lia.
  - clear C H. generalize (S (String.length b)) as n. revert b.
    assert (G : forall n m m' b, m < 0 -> m' < 0 ->
                split_loop n sep m b = split_loop n sep m' b).
    { induction n as [|n IHn]; intros m m' b Hm Hm'; [reflexivity|].
      rewrite !split_loop_step by lia.
      destruct (cut sep b) as [[x y]|]; [|reflexivity].
      f_equal. apply IHn; lia. }
    intros b n. apply G; lia.
Qed.

(** Joining the pieces with the separator gives the text back. *)
Lemma join_split (sep s : string) :
  sep <> "" -> join sep (split sep s) = s.
Proof.
  intros Hsep.
  remember (String.length s) as n eqn:Hn.
  revert s Hn. induction n as [n IH] using lt_wf_ind. intros s Hn.
  rewrite split_eq by assumption.
  destruct (cut sep s) as [[a b]|] eqn:C; [|reflexivity].
  pose proof (cut_shorter sep s a b Hsep C) as L.
  pose proof (cut_first _ _ _ _ C) as [E _].
  assert (J : join sep (split sep b) = b) by (apply (IH (String.length b)); [lia | reflexivity]).
  simpl. destruct (split sep b) as [|y ys] eqn:S.
  - rewrite split_eq in S by assumption. destruct (cut sep b) as [[? ?]|]; discriminate.
  - rewrite E. f_equal. f_equal. exact J.
Qed.

(** No piece contains the separator. *)
Lemma split_pieces (sep s : string) :
  sep <> "" -> Forall (fun piece => ~ occurs sep piece) (split sep s).
Proof.
  intros Hsep.
  remember (String.length s) as n eqn:Hn.
  revert s Hn. induction n as [n IH] using lt_wf_ind. intros s Hn.
  rewrite split_eq by assumption.
  destruct (cut sep s) as [[a b]|] eqn:C.
  - pose proof (cut_shorter sep s a b Hsep C) as L.
    constructor; [|apply (IH (String.length b)); [lia | reflexivity]].
    intros [x [y E]]. apply cut_first in C. destruct C as [Hs Hmin].
    subst a. rewrite !append_assoc in Hs.
    specialize (Hmin x (y ++ sep ++ b) Hs).
    rewrite !length_append in Hmin. destruct sep; [contradiction | simpl in Hmin; lia].
  - constructor; [|constructor].
    apply contains_false. rewrite cut_contains, C. reflexivity.
Qed.

Lemma getitem_split_0 (sep s : string) :
  getitem (split sep s) 0 =
  Ok (match cut sep s with Some (a, _) => a | None => s end).
Proof.
  unfold split, split_max. rewrite split_loop_step by lia.
  destruct (cut sep s) as [[a b]|]; reflexivity.
Qed.

Lemma getitem_split_1 (sep s a b : string) :
  sep <> "" -> cut sep s = Some (a, b) ->
  getitem (split sep s) 1 =
  Ok (match cut sep b with Some (a', _) => a' | None => b end).
Proof.
  intros Hsep C. rewrite split_eq, C by assumption.
  change (getitem (a :: split sep b) 1) with (getitem (split sep b) 0).
  apply getitem_split_0.
Qed.

Lemma split_max_1 (sep s a b : string) :
  cut sep s = Some (a, b) -> split_max sep 1 s = [a; b].
Proof.
  intros C. unfold split_max. rewrite split_loop_step, C by lia.
  f_equal. destruct (String.length s); reflexivity.
Qed.

Lemma split_max_1_none (sep s : string) :
  cut sep s = None -> split_max sep 1 s = [s].
Proof.
  intros C. unfold split_max. rewrite split_loop_step, C by lia. reflexivity.
Qed.

(** *** [strip] *)

Lemma all_space_append (a b : string) :
  all_space a -> all_space b -> all_space (a ++ b).
Proof.
  induction a as [|c a IH]; simpl; [tauto|].
  intros [Hc Ha] Hb. split; [exact Hc | now apply IH].
Qed.

Lemma lstrip_spec (s : string) :
  exists l, s = l ++ lstrip s /\ all_space l /\
            forall c t, lstrip s = String c t -> isspace c = false.
Proof.
  induction s as [|c s [l [E [Hl Hfirst]]]]; simpl.
  - exists "". repeat split. intros; discriminate.
  - destruct (isspace c) eqn:Hc.
    + exists (String c l). simpl. rewrite <- E. repeat split; assumption.
    + exists "". repeat split. intros c' t H. injection H as <- _. exact Hc.
Qed.

Lemma rstrip_spec (s : string) :
  exists r, s = rstrip s ++ r /\ all_space r /\
            forall t c, rstrip s = t ++ String c "" -> isspace c = false.
Proof.
  induction s as [|c s [r [E [Hr Hlast]]]]; simpl.
  - exists "". repeat split. intros [|? ?] ? H; discriminate.
  - destruct (rstrip s) as [|d r0] eqn:R.
    + destruct (isspace c) eqn:Hc.
      * exists (String c s). simpl in E. subst r. repeat split; assumption.
      * exists s. simpl in E. subst r. repeat split; try assumption.
        intros [|x t] c' H; simpl in H.
        -- injection H as <-. exact Hc.
        -- injection H as _ H. destruct t; discriminate.
    + exists r. simpl in *. rewrite <- E. repeat split; try assumption.
      intros [|x t] c' H; simpl in H.
      * discriminate.
      * injection H as _ H. now apply (Hlast t c').
Qed.

(** [strip] removes whitespace at both ends and nothing else. *)
Lemma strip_trimmed (s : string) : trimmed s (strip s).
Proof.
  unfold strip.
  destruct (rstrip_spec s) as [r [Es [Hr Hlast]]].
  destruct (lstrip_spec (rstrip s)) as [l [El [Hl Hfirst]]].
  repeat split.
  - exists l, r. repeat split; try assumption.
    rewrite <- append_assoc, <- El. exact Es.
  - exact Hfirst.
  - intros t c H. apply (Hlast (l ++ t) c).
    rewrite El at 1. rewrite H. now rewrite append_assoc.
Qed.

Lemma lstrip_all_space (l x : string) : all_space l -> lstrip (l ++ x) = lstrip x.
Proof.
  induction l as [|c l IH]; simpl; [reflexivity|].
  intros [Hc Hl]. rewrite Hc. now apply IH.
Qed.

Lemma lstrip_fixed (x : string) :
  (forall c t, x = String c t -> isspace c = false) -> lstrip x = x.
Proof.
  destruct x as [|c x]; simpl; [reflexivity|].
  intros H. now rewrite (H c x eq_refl).
Qed.

Lemma rstrip_all_space (r : string) : all_space r -> rstrip r = "".
Proof.
  induction r as [|c r IH]; simpl; [reflexivity|].
  intros [Hc Hr]. now rewrite (IH Hr), Hc.
Qed.

Lemma rstrip_append_space (x r : string) : all_space r -> rstrip (x ++ r) = rstrip x.
Proof.
  intros Hr. induction x as [|c x IH]; simpl.
  - now apply rstrip_all_space.
  - now rewrite IH.
Qed.

Lemma rstrip_fixed (x : string) :
  (forall t c, x = t ++ String c "" -> isspace c = false) -> rstrip x = x.
Proof.
  induction x as [|c x IH]; simpl; [reflexivity|].
  intros H. destruct x as [|d x].
  - simpl. now rewrite (H "" c eq_refl).
  - rewrite IH; [reflexivity|].
    intros t c' E. apply (H (String c t) c'). simpl. now rewrite E.
Qed.

Lemma rstrip_space_then_fixed (l t : string) :
  all_space l -> t <> "" ->
  (forall t' c, t = t' ++ String c "" -> isspace c = false) ->
  rstrip (l ++ t) = l ++ t.
Proof.
  intros Hl Ht Hlast. induction l as [|c l IH]; simpl.
  - now apply rstrip_fixed.
  - destruct Hl as [_ Hl]. rewrite (IH Hl).
    destruct (l ++ t) eqn:E; [|reflexivity].
    destruct l; simpl in E; [contradiction | discriminate].
Qed.

(** Trimming has one result, the one [strip] computes. *)
Lemma trimmed_strip (s t : string) : trimmed s t <-> t = strip s.
Proof.
  split; [|intros ->; apply strip_trimmed].
  intros [[l [r [-> [Hl Hr]]]] [Hfirst Hlast]]. unfold strip.
  rewrite <- append_assoc, rstrip_append_space by assumption.
  destruct t as [|c t].
  - rewrite append_nil_r, rstrip_all_space by assumption. reflexivity.
  - rewrite rstrip_space_then_fixed; try assumption; [|discriminate].
    rewrite lstrip_all_space by assumption.
    symmetry. now apply lstrip_fixed.
Qed.

End StrFacts.

(** * The parser of the model's answers *)

Module ParserFacts.
Import PyStr StrFacts.
Local Open Scope list_scope.

(** What the test of line 165 computes. *)
Lemma conforming_cut (line : string) :
  conforming line <->
  exists pre post, cut " - " line = Some (pre, post) /\ contains ":" pre = true.
Proof.
  split.
  - intros [_ [pre [post [F O]]]]. exists pre, post. split.
    + now apply first_cut_cut.
    + now apply contains_occurs.
  - intros [pre [post [C K]]]. apply cut_first in C. split.
    + destruct C as [-> _]. now exists pre, post.
    + exists pre, post. split; [exact C | now apply contains_occurs].
Qed.

Lemma draft_loop_keep (line pre post : string) (rest : list string)
    (chapters : list Chapter) :
  cut " - " line = Some (pre, post) -> contains ":" pre = true ->
  draft_loop (line :: rest) chapters =
  draft_loop rest (chapters ++ [mkChapter (strip pre) (strip post)]).
Proof.
  intros C K. cbn [draft_loop].
  rewrite cut_contains, C, getitem_split_0, C. cbn [bind].
  rewrite K, (split_max_1 _ _ _ _ C). reflexivity.
Qed.

Lemma draft_loop_drop (line : string) (rest : list string) (chapters : list Chapter) :
  ~ conforming line -> draft_loop (line :: rest) chapters = draft_loop rest chapters.
Proof.
  intros N. cbn [draft_loop]. rewrite cut_contains, getitem_split_0.
  destruct (cut " - " line) as [[pre post]|] eqn:C; cbn [bind]; [|reflexivity].
  destruct (contains ":" pre) eqn:K; [|reflexivity].
  exfalso. apply N, conforming_cut. now exists pre, post.
Qed.

Lemma conforming_decidable (line : string) : conforming line \/ ~ conforming line.
Proof.
  destruct (cut " - " line) as [[pre post]|] eqn:C.
  - destruct (contains ":" pre) eqn:K.
    + left. apply conforming_cut. now exists pre, post.
    + right. intros H. apply conforming_cut in H.
      destruct H as [pre' [post' [C' K']]]. congruence.
  - right. intros H. apply conforming_cut in H.
    destruct H as [pre' [post' [C' _]]]. congruence.
Qed.

(** The loop never raises, and what it appends is what the specification
    keeps. *)
Lemma draft_loop_spec (lines : list string) (chapters : list Chapter) :
  exists kept,
    draft_loop lines chapters = Ok (chapters ++ kept)%list /\
    chapters_of_lines lines kept.
Proof.
  revert chapters. induction lines as [|line rest IH]; intros chapters.
  - exists []. split; [simpl; now rewrite app_nil_r | constructor].
  - destruct (conforming_decidable line) as [Y | N].
    + pose proof Y as Y'. apply conforming_cut in Y'.
      destruct Y' as [pre [post [C K]]].
      destruct (IH (chapters ++ [mkChapter (strip pre) (strip post)])) as [kept [E R]].
      exists (mkChapter (strip pre) (strip post) :: kept). split.
      * rewrite (draft_loop_keep _ _ _ _ _ C K), E, <- app_assoc. reflexivity.
      * apply chapters_keep with (pre := pre) (post := post); try assumption.
        -- now apply cut_first.
        -- apply strip_trimmed.
        -- apply strip_trimmed.
    + destruct (IH chapters) as [kept [E R]]. exists kept. split.
      * now rewrite draft_loop_drop.
      * now constructor.
Qed.

(** The specification's relation has one result per list of lines. *)
Lemma chapters_of_lines_functional (lines : list string) (cs cs' : list Chapter) :
  chapters_of_lines lines cs -> chapters_of_lines lines cs' -> cs = cs'.
Proof.
  intros H. revert cs'. induction H as [| line pre post ts ti rest cs Y F Ts Ti R IH
                                         | line rest cs N R IH]; intros cs' H'.
  - inversion H'. reflexivity.
  - inversion H' as [| line' pre' post' ts' ti' rest' cs0 Y' F' Ts' Ti' R' | ? ? ? N' R'];
      subst; [|contradiction].
    destruct (first_cut_unique _ _ _ _ _ _ F F') as [<- <-].
    apply trimmed_strip in Ts, Ts', Ti, Ti'. subst.
    f_equal. now apply IH.
  - inversion H' as [| line' pre' post' ts' ti' rest' cs0 Y' F' Ts' Ti' R' | ? ? ? N' R'];
      subst; [contradiction|].
    now apply IH.
Qed.

(** The refiner's loop is the drafter's loop. *)
Lemma refine_loop_draft_loop (lines : list string) (chapters : list Chapter) :
  refine_loop lines chapters = draft_loop lines chapters.
Proof.
  revert chapters. induction lines as [|line rest IH]; intros chapters.
  - reflexivity.
  - cbn [refine_loop draft_loop].
    destruct (contains " - " line); cbn [bind].
    + destruct (getitem (split " - " line) 0) as [head|e]; cbn [bind]; [|reflexivity].
      destruct (contains ":" head); [|apply IH].
      destruct (getitem (split_max " - " 1 line) 0); cbn [bind]; [|reflexivity].
      destruct (getitem (split_max " - " 1 line) 1); cbn [bind]; [|reflexivity].
      apply IH.
    + apply IH.
Qed.

Lemma parse_draft_spec (response_text : string) :
  exists chapters,
    parse_draft response_text = Ok chapters /\
    chapters_of_lines (response_lines response_text) chapters.
Proof.
  unfold parse_draft.
  destruct (draft_loop_spec (response_lines response_text) []) as [kept [E R]].
  exists kept. split; [exact E | exact R].
Qed.

Lemma parse_refined_parse_draft (response_text : string) :
  parse_refined response_text = parse_draft response_text.
Proof. unfold parse_refined, parse_draft. apply refine_loop_draft_loop. Qed.

Lemma no_conforming_line (lines : list string) (cs : list Chapter) :
  Forall (fun line => ~ conforming line) lines ->
  chapters_of_lines lines cs -> cs = [].
Proof.
  intros H R. induction R as [| line pre post ts ti rest cs Y F Ts Ti R IH
                               | line rest cs N R IH].
  - reflexivity.
  - inversion H; subst. contradiction.
  - inversion H; subst. now apply IH.
Qed.

End ParserFacts.

(** * The URL parser *)

Module UrlFacts.
Import PyStr StrFacts.

(** The text before the first occurrence, as [split(sep)[0]] computes it. *)
Lemma text_before_cut (sep s t : string) :
  text_before sep s t <->
  t = match cut sep s with Some (a, _) => a | None => s end.
Proof.
  split.
  - intros [[rest F] | [N ->]].
    + now rewrite (first_cut_cut _ _ _ _ F).
    + apply contains_false in N. rewrite cut_contains in N.
      destruct (cut sep s) as [[a b]|]; [discriminate | reflexivity].
  - intros ->. destruct (cut sep s) as [[a b]|] eqn:C.
    + left. exists b. now apply cut_first.
    + right. split; [|reflexivity].
      apply contains_false. now rewrite cut_contains, C.
Qed.

Lemma text_before_total (sep s : string) : exists t, text_before sep s t.
Proof. eexists. apply text_before_cut. reflexivity. Qed.

Lemma occurs_first_cut (sep s : string) :
  occurs sep s -> exists a b, first_cut sep s a b.
Proof.
  intros O. apply contains_occurs in O. rewrite cut_contains in O.
  destruct (cut sep s) as [[a b]|] eqn:C; [|discriminate].
  exists a, b. now apply cut_first.
Qed.

(** The first branch of [extract_video_id], step by step. *)
Lemma extract_video_id_v (url pre rest seg id : string) :
  first_cut "v=" url pre rest ->
  text_before "v=" rest seg -> text_before "&" seg id ->
  extract_video_id url = Ok id.
Proof.
  intros F S I. apply first_cut_cut in F.
  apply text_before_cut in S. apply text_before_cut in I.
  unfold extract_video_id. rewrite cut_contains, F.
  rewrite (getitem_split_1 "v=" url pre rest) by (discriminate || assumption).
  cbn [bind]. rewrite getitem_split_0. now subst.
Qed.

(** A one-character separator is first met right after a text without it. *)
Lemma first_cut_char (c : ascii) (a b : string) :
  ~ occurs (String c "") a -> first_cut (String c "") (a ++ String c "" ++ b) a b.
Proof.
  intros N. split; [reflexivity|].
  intros a' b' E.
  destruct (Nat.le_gt_cases (String.length a) (String.length a')) as [L | L];
    [exact L | exfalso].
  symmetry in E.
  destruct (append_split a' (String c "" ++ b') a (String c "" ++ b) E) as [m [Ha Hm]];
    [lia|].
  destruct m as [|k m].
  - rewrite append_nil_r in Ha. subst a'. lia.
  - simpl in Hm. injection Hm as <- _. apply N. now exists a', m.
Qed.

(** The text before the next ["v="] still begins with [ID&] when [ID] has no
    ["v="] of its own. *)
Lemma before_v_keeps_id (ID extra seg : string) :
  ~ occurs "v=" ID -> text_before "v=" (ID ++ "&" ++ extra) seg ->
  exists x, seg = ID ++ "&" ++ x.
Proof.
  intros N [[tail [E _]] | [_ ->]]; [|now exists extra].
  destruct (Nat.le_gt_cases (String.length (ID ++ "&")) (String.length seg)) as [L | L].
  - rewrite <- append_assoc in E.
    destruct (append_split (ID ++ "&") extra seg ("v=" ++ tail) E L) as [m [-> _]].
    exists m. now rewrite append_assoc.
  - exfalso. rewrite length_append in L. simpl in L. symmetry in E.
    destruct (append_split seg ("v=" ++ tail) ID ("&" ++ extra) E) as [m [Hid Hm]];
      [lia|].
    destruct m as [|k1 [|k2 m]]; simpl in Hm; try discriminate.
    injection Hm as <- <- _. apply N. now exists seg, m.
Qed.

Lemma extract_video_id_amp (url pre ID extra : string) :
  first_cut "v=" url pre (ID ++ "&" ++ extra) ->
  ~ occurs "&" ID -> ~ occurs "v=" ID ->
  extract_video_id url = Ok ID.
Proof.
  intros F NA NV.
  destruct (text_before_total "v=" (ID ++ "&" ++ extra)) as [seg S].
  destruct (before_v_keeps_id ID extra seg NV S) as [x ->].
  apply (extract_video_id_v url pre _ _ ID F S).
  left. exists x. now apply first_cut_char.
Qed.

End UrlFacts.

(** * Binary64 arithmetic where it is exact *)

Module FloatFacts.

(** Rounding sees the value, not the fraction that writes it. *)
Lemma round_binary64_proper (q1 q2 : Q) :
  (q1 == q2)%Q -> round_binary64 q1 = round_binary64 q2.
Proof. intros H. unfold round_binary64. now rewrite (Qred_complete _ _ H). Qed.

Lemma pow2_nonneg (e : Z) : 0 <= e -> (pow2 e == inject_Z (2 ^ e))%Q.
Proof. intros H. unfold pow2. now rewrite (Zpower_Qpower 2 e H). Qed.

Lemma pow2_nonpos (u : Z) : u <= 0 -> (pow2 u == / inject_Z (2 ^ (- u)))%Q.
Proof.
  intros H. unfold pow2.
  replace u with (- - u) at 1 by lia.
  rewrite Qpower_opp. now rewrite (Zpower_Qpower 2 (- u)) by lia.
Qed.

Lemma round_half_even_int (x : Q) (k : Z) :
  (x == inject_Z k)%Q -> round_half_even x = k.
Proof.
  intros H. unfold round_half_even.
  rewrite (Qfloor_comp _ _ H), Qfloor_Z.
  destruct (Qcompare_spec (x - inject_Z k) (1 # 2)) as [E | L | G].
  - exfalso. rewrite H in E. lra.
  - reflexivity.
  - exfalso. rewrite H in G. lra.
Qed.

(** A whole number below [2 ** 53] is a float: rounding leaves it alone. *)
Lemma round_binary64_int (z : Z) :
  0 <= z < 2 ^ 53 -> (round_binary64 (inject_Z z) == inject_Z z)%Q.
Proof.
  intros [Lo Hi]. unfold round_binary64.
  assert (R : Qred (inject_Z z) = inject_Z z).
  { unfold Qred, inject_Z.
    pose proof (Z.ggcd_gcd z 1) as G. pose proof (Z.ggcd_correct_divisors z 1) as C.
    change (Z.pos 1) with 1. destruct (Z.ggcd z 1) as [g [aa bb]]. simpl in *.
    rewrite Z.gcd_1_r in G. subst g. destruct C as [C1 C2].
    rewrite Z.mul_1_l in C1, C2. now subst. }
  rewrite R.
  destruct (Z.eq_dec z 0) as [-> | NZ]; [reflexivity|].
  assert (Pos : 0 < z) by lia.
  assert (E0 : Qeq_bool (inject_Z z) 0 = false).
  { destruct (Qeq_bool (inject_Z z) 0) eqn:E; [|reflexivity].
    apply Qeq_bool_eq in E. unfold Qeq in E. simpl in E. lia. }
  rewrite E0.
  assert (A : Qabs (inject_Z z) = inject_Z z).
  { unfold Qabs, inject_Z. now rewrite Z.abs_eq by lia. }
  rewrite A.
  assert (NN : Qle_bool 0 (inject_Z z) = true).
  { apply Qle_bool_iff. change 0%Q with (inject_Z 0). rewrite <- Zle_Qle. lia. }
  rewrite NN. rewrite Qred_correct.
  assert (FL : floor_log2 (inject_Z z) = Z.log2 z).
  { unfold floor_log2. cbn [Qnum Qden inject_Z]. change (Z.log2 1) with 0.
    rewrite Z.sub_0_r.
    assert (T : Qle_bool (pow2 (Z.log2 z)) (inject_Z z) = true).
    { apply Qle_bool_iff. rewrite pow2_nonneg by apply Z.log2_nonneg.
      rewrite <- Zle_Qle. now apply Z.log2_spec. }
    now rewrite T. }
  rewrite FL.
  set (u := Z.max (Z.log2 z - 52) (-1074)).
  assert (U : u <= 0).
  { assert (Z.log2 z < 53) by (apply Z.log2_lt_pow2; lia). unfold u. lia. }
  assert (P : 0 < 2 ^ (- u)) by (apply Z.pow_pos_nonneg; lia).
  assert (NZQ : ~ (inject_Z (2 ^ (- u)) == 0)%Q).
  { intros E. unfold Qeq in E. simpl in E. lia. }
  rewrite (round_half_even_int _ (z * 2 ^ (- u))).
  - rewrite (pow2_nonpos u U), inject_Z_mult. field. exact NZQ.
  - rewrite (pow2_nonpos u U), inject_Z_mult. field. exact NZQ.
Qed.

(** The same for any fraction denoting such a number. *)
Lemma round_binary64_exact (q : Q) (z : Z) :
  (q == inject_Z z)%Q -> 0 <= z < 2 ^ 53 -> (round_binary64 q == inject_Z z)%Q.
Proof.
  intros E B. rewrite (round_binary64_proper _ _ E). now apply round_binary64_int.
Qed.

Section BelowTwoTo53.

Variable q : Q.
Hypothesis q_nonneg : (0 <= q)%Q.
Hypothesis q_small : (q < inject_Z (2 ^ 53))%Q.

Let minutes := Qfloor (q / inject_Z 60).

Lemma quotient_nonneg : (0 <= q / inject_Z 60)%Q.
Proof. apply Qle_shift_div_l; [reflexivity | lra]. Qed.

Lemma minutes_bounds : 0 <= minutes /\ 60 * minutes < 2 ^ 53.
Proof.
  pose proof quotient_nonneg as Q0.
  pose proof (Qfloor_le (q / inject_Z 60)) as F. fold minutes in F.
  split.
  - unfold minutes. change 0 with (Qfloor 0). now apply Qfloor_resp_le.
  - assert (E : (q == inject_Z 60 * (q / inject_Z 60))%Q) by field.
    assert (L : (inject_Z (60 * minutes) < inject_Z (2 ^ 53))%Q).
    { rewrite inject_Z_mult. set (x := (q / inject_Z 60)%Q) in *.
      change (inject_Z 60) with 60%Q in *. lra. }
    now rewrite <- Zlt_Qlt in L.
Qed.

(** [fmod] is the remainder after the whole minutes. *)
Lemma fmod_60 : fmod q (inject_Z 60) = (q - inject_Z 60 * inject_Z minutes)%Q.
Proof.
  unfold fmod. pose proof quotient_nonneg as Q0.
  apply Qle_bool_iff in Q0. now rewrite Q0.
Qed.

Lemma fmod_60_range : (0 <= fmod q (inject_Z 60) < 60)%Q.
Proof.
  rewrite fmod_60. unfold minutes.
  pose proof (Qfloor_le (q / inject_Z 60)) as Lo.
  pose proof (Qlt_floor (q / inject_Z 60)) as Hi.
  assert (E : (q == inject_Z 60 * (q / inject_Z 60))%Q) by field.
  set (x := (q / inject_Z 60)%Q) in *.
  rewrite inject_Z_plus in Hi.
  change (inject_Z 60) with 60%Q in *. change (inject_Z 1) with 1%Q in *. lra.
Qed.

Lemma not_moved :
  xorb (Qlt_bool (inject_Z 60) 0) (Qlt_bool (fmod q (inject_Z 60)) 0) = false.
Proof.
  destruct fmod_60_range as [Lo _]. apply Qle_bool_iff in Lo.
  unfold Qlt_bool. now rewrite Lo.
Qed.

(** Below [2 ** 53] the remainder of the interpreter is the exact one. *)
Lemma float_rem_60 :
  (float_rem q (inject_Z 60) == q - inject_Z 60 * inject_Z minutes)%Q.
Proof.
  unfold float_rem. rewrite not_moved.
  destruct (Qeq_bool (fmod q (inject_Z 60)) 0) eqn:E.
  - apply Qeq_bool_eq in E. rewrite <- fmod_60. now symmetry.
  - now rewrite fmod_60.
Qed.

(** Below [2 ** 53] the floor division of the interpreter is the exact
    one: the subtraction and the division it makes are exact. *)
Lemma float_floor_div_60 : (float_floor_div q (inject_Z 60) == inject_Z minutes)%Q.
Proof.
  destruct minutes_bounds as [M0 M1].
  unfold float_floor_div. rewrite not_moved.
  assert (S : (round_binary64 (q - fmod q (inject_Z 60)) == inject_Z (60 * minutes))%Q).
  { apply round_binary64_exact; [|lia]. rewrite fmod_60, inject_Z_mult. ring. }
  assert (D : (round_binary64 (round_binary64 (q - fmod q (inject_Z 60)) / inject_Z 60)
               == inject_Z minutes)%Q).
  { apply round_binary64_exact; [|lia]. rewrite S, inject_Z_mult. field. }
  set (div := round_binary64 (round_binary64 (q - fmod q (inject_Z 60)) / inject_Z 60))
    in *.
  assert (D' : ((if Qeq_bool (fmod q (inject_Z 60)) 0 then div else div)
                == inject_Z minutes)%Q).
  { now destruct (Qeq_bool (fmod q (inject_Z 60)) 0). }
  set (div' := if Qeq_bool (fmod q (inject_Z 60)) 0 then div else div) in *.
  destruct (Qeq_bool div' 0) eqn:Z0.
  - apply Qeq_bool_eq in Z0. now rewrite <- D', Z0.
  - rewrite (Qfloor_comp _ _ D'), Qfloor_Z.
    assert (R0 : round_binary64 (div' - inject_Z minutes) = round_binary64 0).
    { apply round_binary64_proper. rewrite D'. ring. }
    rewrite R0. reflexivity.
Qed.

End BelowTwoTo53.

End FloatFacts.

(** * The time formatter *)

Module TimeFacts.

Lemma minutes_nonneg (q : Q) : (0 <= q)%Q -> 0 <= Qfloor (q / inject_Z 60).
Proof.
  intros H. change 0 with (Qfloor 0). apply Qfloor_resp_le.
  apply Qle_shift_div_l; [reflexivity | lra].
Qed.

(** What is left after the whole minutes lies in [[0, 60)]. *)
Lemma remainder_range (q : Q) :
  (0 <= q - inject_Z 60 * inject_Z (Qfloor (q / inject_Z 60)) < 60)%Q.
Proof.
  pose proof (Qfloor_le (q / inject_Z 60)) as Lo.
  pose proof (Qlt_floor (q / inject_Z 60)) as Hi.
  assert (E : (q == inject_Z 60 * (q / inject_Z 60))%Q) by field.
  set (x := (q / inject_Z 60)%Q) in *.
  rewrite inject_Z_plus in Hi.
  change (inject_Z 60) with 60%Q in *. change (inject_Z 1) with 1%Q in *. lra.
Qed.

Lemma seconds_range (q : Q) :
  0 <= Qfloor (q - inject_Z 60 * inject_Z (Qfloor (q / inject_Z 60))) < 60.
Proof.
  destruct (remainder_range q) as [Lo Hi].
  set (r := (q - inject_Z 60 * inject_Z (Qfloor (q / inject_Z 60)))%Q) in *.
  split.
  - change 0 with (Qfloor 0). now apply Qfloor_resp_le.
  - pose proof (Qfloor_le r) as F.
    assert (L : (inject_Z (Qfloor r) < inject_Z 60)%Q).
    { change (inject_Z 60) with 60%Q. lra. }
    now rewrite <- Zlt_Qlt in L.
Qed.

Lemma format_02_nonneg (n : Z) : 0 <= n -> format_02 n = zero_fill 2 (decimal n).
Proof.
  intros H. unfold format_02.
  destruct (Z.ltb_spec n 0) as [L | _]; [lia | reflexivity].
Qed.

(** On a finite non-negative value below [2 ** 53] the formatter returns,
    and what it returns is the specification's [MM:SS]. *)
Lemma format_time_finite (q : Q) :
  (0 <= q)%Q -> (q < inject_Z (2 ^ 53))%Q ->
  format_time (Finite q) = Ok (mm_ss q).
Proof.
  intros H B. unfold format_time, float_floordiv, float_mod, int_of_float.
  cbn [bind].
  pose proof (FloatFacts.float_floor_div_60 q H B) as D.
  pose proof (FloatFacts.float_rem_60 q H) as R.
  destruct (remainder_range q) as [Lo _].
  assert (RL : Qle_bool 0 (float_rem q (inject_Z 60)) = true).
  { apply Qle_bool_iff. rewrite R. exact Lo. }
  rewrite RL, (Qfloor_comp _ _ R).
  rewrite (Qfloor_comp _ _ D), (Qceiling_comp _ _ D), Qfloor_Z, Qceiling_Z.
  rewrite !format_02_nonneg.
  - destruct (Qle_bool 0 (float_floor_div q (inject_Z 60))); reflexivity.
  - apply seconds_range.
  - destruct (Qle_bool 0 (float_floor_div q (inject_Z 60)));
      now apply minutes_nonneg.
Qed.

Lemma length_string_of_list_ascii (l : list ascii) :
  String.length (string_of_list_ascii l) = List.length l.
Proof. induction l as [|c l IH]; simpl; [reflexivity | now rewrite IH]. Qed.

Lemma zero_fill_length (width : nat) (s : string) :
  String.length (zero_fill width s) = Nat.max width (String.length s).
Proof.
  unfold zero_fill.
  rewrite StrFacts.length_append, length_string_of_list_ascii, repeat_length. lia.
Qed.

(** A value below 60 is written with two characters. *)
Lemma two_digits (n : Z) :
  0 <= n < 60 -> String.length (zero_fill 2 (decimal n)) = 2%nat.
Proof.
  intros H.
  assert (A : forallb
                (fun k => Nat.eqb (String.length (zero_fill 2 (decimal (Z.of_nat k)))) 2)
                (seq 0 60) = true) by (vm_compute; reflexivity).
  rewrite forallb_forall in A.
  specialize (A (Z.to_nat n)). rewrite Z2Nat.id in A by lia.
  apply Nat.eqb_eq, A, in_seq. lia.
Qed.

End TimeFacts.

(** * The fetcher and the request handler *)

Module HandlerFacts.

Lemma str_in_list_In (x : string) (l : list string) :
  str_in_list x l = true <-> In x l.
Proof.
  unfold str_in_list. rewrite existsb_exists. split.
  - intros [y [I E]]. apply String.eqb_eq in E. now subst.
  - intros I. exists x. split; [exact I | apply String.eqb_refl].
Qed.

(** A listed code is found, on the first track that carries it. *)
Lemma find_listed_code (code : string) (ts : list Track) :
  In code (map language_code ts) ->
  exists t, find (fun t => String.eqb (language_code t) code) ts = Some t /\
            language_code t = code /\ In t ts.
Proof.
  induction ts as [|t ts IH]; simpl; [contradiction|].
  intros H. destruct (String.eqb_spec (language_code t) code) as [E | N].
  - exists t. repeat split; [exact E | now left].
  - destruct H as [H | H]; [contradiction|].
    destruct (IH H) as [t' [F [E I]]]. exists t'. repeat split; [exact F | exact E | now right].
Qed.

Lemma select_language_en (tl : TranscriptList) (requested : option string) :
  not_supplied requested = true ->
  In "en" (map language_code (tracks tl)) ->
  select_language tl requested = Ok "en".
Proof.
  intros N I. unfold select_language. rewrite N.
  apply str_in_list_In in I. now rewrite I.
Qed.

(** The formatted transcript keeps the texts of the fetched entries, in
    their order. *)
Lemma format_entries_text (raw : list RawEntry) (formatted : list Entry) :
  format_entries raw = Ok formatted -> map text formatted = map raw_text raw.
Proof.
  revert formatted. induction raw as [|entry raw IH]; intros formatted; simpl.
  - intros H. injection H as <-. reflexivity.
  - destruct (format_time (raw_start entry)) as [t|e]; cbn [bind]; [|discriminate].
    destruct (format_entries raw) as [rest|e]; cbn [bind]; [|discriminate].
    intros H. injection H as <-. simpl. f_equal. now apply IH.
Qed.

(** Whatever goes wrong in the fetcher leaves it as a 404. *)
Lemma fetch_transcript_raises (w : World) (video_url : string)
    (requested : option string) (e : exn) :
  fetch_transcript w video_url requested = Raise e ->
  exists cause,
    e = HTTPException 404
          ("Error fetching transcript: " ++ exn_str (http_exception_str w) cause).
Proof.
  unfold fetch_transcript, try_except.
  match goal with |- match ?body with _ => _ end = _ -> _ => destruct body as [a|cause] end.
  - discriminate.
  - intros H. injection H as <-. now exists cause.
Qed.

(** Whatever goes wrong in the refiner is a failed model call, and leaves
    the refiner as a 500. *)
Lemma refine_raises (w : World) (draft : list Chapter) (transcript : list Entry)
    (e : exn) :
  refine_chapters_with_gemini w draft transcript = Raise e ->
  exists cause,
    generate_content w refine_config (refine_prompt draft transcript) = Raise cause /\
    e = HTTPException 500
          ("Error refining chapters with AI: " ++ exn_str (http_exception_str w) cause).
Proof.
  unfold refine_chapters_with_gemini, try_except.
  destruct (generate_content w refine_config (refine_prompt draft transcript))
    as [response_text|cause]; cbn [bind].
  - rewrite ParserFacts.parse_refined_parse_draft.
    destruct (ParserFacts.parse_draft_spec response_text) as [cs [-> _]]. discriminate.
  - intros H. injection H as <-. now exists cause.
Qed.

Lemma draft_raises (w : World) (transcript : list Entry) (e : exn) :
  generate_chapters_with_gemini w transcript = Raise e ->
  exists cause,
    generate_content w draft_config (draft_prompt transcript) = Raise cause /\
    e = HTTPException 500
          ("Error generating chapters with AI: " ++ exn_str (http_exception_str w) cause).
Proof.
  unfold generate_chapters_with_gemini, try_except.
  destruct (generate_content w draft_config (draft_prompt transcript))
    as [response_text|cause]; cbn [bind].
  - destruct (ParserFacts.parse_draft_spec response_text) as [cs [-> _]]. discriminate.
  - intros H. injection H as <-. now exists cause.
Qed.

(** The handler after a failed fetch: the 404 of the fetcher is caught by
    the handler's last [except] clause and leaves as a 500. *)
Lemma generate_chapters_fetch_failed (w : World) (request : VideoRequest)
    (detail : string) :
  fetch_transcript w (url request) (language request)
  = Raise (HTTPException 404 detail) ->
  generate_chapters w request
  = Raise (HTTPException 500
             ("An unexpected error occurred: " ++ http_exception_str w 404 detail)).
Proof. intros F. unfold generate_chapters. rewrite F. reflexivity. Qed.

(** The handler after a failed refinement. *)
Lemma generate_chapters_refine_failed (w : World) (request : VideoRequest)
    (transcript : list Entry) (detected : string) (draft : list Chapter)
    (detail : string) :
  fetch_transcript w (url request) (language request) = Ok (transcript, detected) ->
  generate_chapters_with_gemini w transcript = Ok draft ->
  refine_chapters_with_gemini w draft transcript = Raise (HTTPException 500 detail) ->
  generate_chapters w request
  = Raise (HTTPException 500
             ("An unexpected error occurred: "
              ++ http_exception_str w 500
                   ("Error processing with AI: " ++ http_exception_str w 500 detail))).
Proof.
  intros F D R. unfold generate_chapters. rewrite F. cbn [bind].
  rewrite D. cbn [bind]. rewrite R. reflexivity.
Qed.

(** A returned dict is made of the results of the four steps. *)
Lemma generate_chapters_ok (w : World) (request : VideoRequest)
    (response : ChapterResponse) :
  generate_chapters w request = Ok response ->
  exists transcript detected draft refined id,
    fetch_transcript w (url request) (language request) = Ok (transcript, detected) /\
    generate_chapters_with_gemini w transcript = Ok draft /\
    refine_chapters_with_gemini w draft transcript = Ok refined /\
    extract_video_id (url request) = Ok id /\
    response = mkChapterResponse true id detected transcript
                 (PyStr.join " " (map text transcript)) draft refined.
Proof.
  unfold generate_chapters.
  destruct (fetch_transcript w (url request) (language request))
    as [[transcript detected]|e] eqn:F; cbn [bind].
  - destruct (generate_chapters_with_gemini w transcript) as [draft|e] eqn:D;
      cbn [bind try_except].
    + destruct (refine_chapters_with_gemini w draft transcript) as [refined|e] eqn:R;
        cbn [bind try_except].
      * destruct (extract_video_id (url request)) as [id|e] eqn:X;
          cbn [bind try_except].
        -- intros H. injection H as <-.
           exists transcript, detected, draft, refined, id. repeat split; assumption.
        -- cbn [is_ValueError]. discriminate.
      * cbn [is_ValueError]. discriminate.
    + cbn [is_ValueError]. discriminate.
  - destruct (is_ValueError e); discriminate.
Qed.

(** A fetched transcript means the URL parser accepted the URL. *)
Lemma fetch_transcript_ok_id (w : World) (video_url : string)
    (requested : option string) (r : list Entry * string) :
  fetch_transcript w video_url requested = Ok r ->
  exists id, extract_video_id video_url = Ok id.
Proof.
  unfold fetch_transcript.
  destruct (extract_video_id video_url) as [id|e]; cbn [bind try_except].
  - intros _. now exists id.
  - discriminate.
Qed.

(** When the three steps succeed the handler returns their results, empty
    chapter lists included. *)
Lemma generate_chapters_success (w : World) (request : VideoRequest)
    (transcript : list Entry) (detected : string) (draft refined : list Chapter) :
  fetch_transcript w (url request) (language request) = Ok (transcript, detected) ->
  generate_chapters_with_gemini w transcript = Ok draft ->
  refine_chapters_with_gemini w draft transcript = Ok refined ->
  exists id,
    extract_video_id (url request) = Ok id /\
    generate_chapters w request
    = Ok (mkChapterResponse true id detected transcript
            (PyStr.join " " (map text transcript)) draft refined).
Proof.
  intros F D R. destruct (fetch_transcript_ok_id _ _ _ _ F) as [id X].
  exists id. split; [exact X|].
  unfold generate_chapters. rewrite F. cbn [bind].
  rewrite D. cbn [bind]. rewrite R. cbn [bind]. rewrite X. reflexivity.
Qed.

(** No failure of the handler carries a status other than 500. *)
Lemma generate_chapters_raises (w : World) (request : VideoRequest) (e : exn) :
  generate_chapters w request = Raise e -> exists detail, e = HTTPException 500 detail.
Proof.
  unfold generate_chapters.
  destruct (fetch_transcript w (url request) (language request))
    as [[transcript detected]|e0] eqn:F; cbn [bind].
  - match goal with
    | |- match try_except ?body ?h with _ => _ end = _ -> _ =>
        destruct body as [r|e1]; cbn [try_except is_ValueError]
    end.
    + discriminate.
    + intros H. injection H as <-. eexists. reflexivity.
  - destruct (fetch_transcript_raises _ _ _ _ F) as [cause ->].
    cbn [is_ValueError]. intros H. injection H as <-. eexists. reflexivity.
Qed.

End HandlerFacts.

(** * More on the URL parser *)

Module UrlMore.
Import PyStr StrFacts UrlFacts.

(** The second branch of [extract_video_id], step by step. *)
Lemma extract_video_id_short (url pre rest seg id : string) :
  ~ occurs "v=" url ->
  first_cut "youtu.be/" url pre rest ->
  text_before "youtu.be/" rest seg -> text_before "?" seg id ->
  extract_video_id url = Ok id.
Proof.
  intros NV F S I. apply contains_false in NV. apply first_cut_cut in F.
  apply text_before_cut in S. apply text_before_cut in I.
  unfold extract_video_id. rewrite NV, cut_contains, F.
  rewrite (getitem_split_1 "youtu.be/" url pre rest) by (discriminate || assumption).
  cbn [bind]. rewrite getitem_split_0. now subst.
Qed.

(** The text before a separator does not contain the separator. *)
Lemma text_before_free (sep s t : string) :
  sep <> "" -> text_before sep s t -> ~ occurs sep t.
Proof.
  intros Hsep [[rest [E Hmin]] | [N ->]]; [|exact N].
  intros [x [y Ht]]. subst t. rewrite !append_assoc in E.
  specialize (Hmin x (y ++ sep ++ rest) E).
  rewrite !length_append in Hmin. destruct sep; [contradiction | simpl in Hmin; lia].
Qed.

(** The text before a separator is a prefix of the whole text. *)
Lemma text_before_prefix (sep s t : string) :
  text_before sep s t -> exists u, s = t ++ u.
Proof.
  intros [[rest [E _]] | [_ ->]].
  - now exists (sep ++ rest).
  - exists "". now rewrite append_nil_r.
Qed.

Lemma occurs_prefix (x t u : string) : occurs x t -> occurs x (t ++ u).
Proof.
  intros [a [b ->]]. exists a, (b ++ u). now rewrite !append_assoc.
Qed.

(** What the two cuts of a branch leave contains neither separator. *)
Lemma twice_before_free (sep1 sep2 rest seg id : string) :
  sep1 <> "" -> sep2 <> "" ->
  text_before sep1 rest seg -> text_before sep2 seg id ->
  ~ occurs sep1 id /\ ~ occurs sep2 id.
Proof.
  intros H1 H2 S I. split.
  - intros O. destruct (text_before_prefix _ _ _ I) as [u ->].
    apply (text_before_free _ _ _ H1 S). now apply occurs_prefix.
  - now apply (text_before_free sep2 seg id).
Qed.

(** The parser's result, decomposed: which branch ran and what it cut. *)
Lemma extract_video_id_cases (url : string) :
  (exists pre rest seg id,
      first_cut "v=" url pre rest /\
      text_before "v=" rest seg /\ text_before "&" seg id /\
      extract_video_id url = Ok id) \/
  (~ occurs "v=" url /\
   exists pre rest seg id,
      first_cut "youtu.be/" url pre rest /\
      text_before "youtu.be/" rest seg /\ text_before "?" seg id /\
      extract_video_id url = Ok id) \/
  (~ occurs "v=" url /\ ~ occurs "youtu.be/" url /\
   extract_video_id url = Raise (ValueError "Invalid YouTube URL")).
Proof.
  destruct (contains "v=" url) eqn:V.
  - left. apply contains_occurs in V.
    destruct (occurs_first_cut _ _ V) as [pre [rest F]].
    destruct (text_before_total "v=" rest) as [seg S].
    destruct (text_before_total "&" seg) as [id I].
    exists pre, rest, seg, id. repeat split; try assumption;
      try (now destruct F). exact (extract_video_id_v _ _ _ _ _ F S I).
  - right. pose proof V as NV. apply contains_false in NV.
    destruct (contains "youtu.be/" url) eqn:Y.
    + left. split; [exact NV|]. apply contains_occurs in Y.
      destruct (occurs_first_cut _ _ Y) as [pre [rest F]].
      destruct (text_before_total "youtu.be/" rest) as [seg S].
      destruct (text_before_total "?" seg) as [id I].
      exists pre, rest, seg, id. repeat split; try assumption;
        try (now destruct F). exact (extract_video_id_short _ _ _ _ _ NV F S I).
    + right. split; [exact NV|]. split; [now apply contains_false|].
      unfold extract_video_id. now rewrite V, Y.
Qed.

(** After a short link, [ID?query] is cut at the question mark. *)
Lemma before_short_keeps_id (ID query seg : string) :
  ~ occurs "youtu.be/" ID -> text_before "youtu.be/" (ID ++ "?" ++ query) seg ->
  exists x, seg = ID ++ "?" ++ x.
Proof.
  intros N [[tail [E _]] | [_ ->]]; [|now exists query].
  destruct (Nat.le_gt_cases (String.length (ID ++ "?")) (String.length seg)) as [L | L].
  - rewrite <- append_assoc in E.
    destruct (append_split (ID ++ "?") query seg ("youtu.be/" ++ tail) E L) as [m [-> _]].
    exists m. now rewrite append_assoc.
  - exfalso. rewrite length_append in L. simpl in L. symmetry in E.
    destruct (append_split seg ("youtu.be/" ++ tail) ID ("?" ++ query) E) as [m [Hid Hm]];
      [lia|].
    destruct m as [|k1 [|k2 [|k3 [|k4 [|k5 [|k6 [|k7 [|k8 [|k9 m]]]]]]]]];
      simpl in Hm; try discriminate.
    injection Hm as <- <- <- <- <- <- <- <- <- _.
    apply N. now exists seg, m.
Qed.

Lemma extract_video_id_question (url pre ID query : string) :
  ~ occurs "v=" url ->
  first_cut "youtu.be/" url pre (ID ++ "?" ++ query) ->
  ~ occurs "?" ID -> ~ occurs "youtu.be/" ID ->
  extract_video_id url = Ok ID.
Proof.
  intros NV F NQ NY.
  destruct (text_before_total "youtu.be/" (ID ++ "?" ++ query)) as [seg S].
  destruct (before_short_keeps_id ID query seg NY S) as [x ->].
  apply (extract_video_id_short url pre _ _ ID NV F S).
  left. exists x. now apply first_cut_char.
Qed.

End UrlMore.

(** * More on the time formatter and the fetcher *)

Module TimeMore.
Import TimeFacts.

(** The integer between [x - 1] and [x] is the floor of [x]. *)
Lemma floor_unique (x : Q) (z : Z) :
  (inject_Z z <= x)%Q -> (x < inject_Z (z + 1))%Q -> Qfloor x = z.
Proof.
  intros Lo Hi.
  pose proof (Qfloor_le x) as A. pose proof (Qlt_floor x) as B.
  assert (C : (inject_Z (Qfloor x) < inject_Z (z + 1))%Q) by lra.
  assert (D : (inject_Z z < inject_Z (Qfloor x + 1))%Q) by lra.
  rewrite <- Zlt_Qlt in C, D. lia.
Qed.

(** Minutes and seconds together are the whole seconds. *)
Lemma minutes_seconds_total (q : Q) :
  60 * Qfloor (q / inject_Z 60)
  + Qfloor (q - inject_Z 60 * inject_Z (Qfloor (q / inject_Z 60)))
  = Qfloor q.
Proof.
  set (m := Qfloor (q / inject_Z 60)).
  pose proof (Qfloor_le q) as A. pose proof (Qlt_floor q) as B.
  assert (E : Qfloor (q - inject_Z 60 * inject_Z m) = Qfloor q - 60 * m).
  { apply floor_unique.
    - replace (Qfloor q - 60 * m) with (Qfloor q + - (60 * m)) by lia.
      rewrite inject_Z_plus, inject_Z_opp, inject_Z_mult. lra.
    - replace (Qfloor q - 60 * m + 1) with (Qfloor q + 1 + - (60 * m)) by lia.
      rewrite inject_Z_plus, inject_Z_opp, inject_Z_mult. lra. }
  rewrite E. lia.
Qed.

Lemma to_uint_not_nil (n : N) : N.to_uint n <> Decimal.Nil.
Proof.
  destruct n as [|p]; [discriminate | apply DecimalPos.Unsigned.to_uint_nonnil].
Qed.

Lemma decimal_not_empty (n : Z) : decimal n <> "".
Proof.
  unfold decimal. destruct (N.to_uint (Z.to_N n)); simpl; discriminate.
Qed.

(** [str(n)] reads back as [n]. *)
Lemma read_decimal_decimal (n : Z) : 0 <= n -> read_decimal (decimal n) = Some n.
Proof.
  intros H. pose proof (decimal_not_empty n) as NE. unfold read_decimal.
  destruct (decimal n) as [|c s] eqn:E; [contradiction|]. rewrite <- E.
  unfold decimal in *. pose proof (to_uint_not_nil (Z.to_N n)) as NN.
  assert (S : NilZero.string_of_uint (N.to_uint (Z.to_N n))
              = NilEmpty.string_of_uint (N.to_uint (Z.to_N n))).
  { destruct (N.to_uint (Z.to_N n)); try reflexivity. contradiction. }
  rewrite S, NilEmpty.usu. simpl.
  now rewrite DecimalN.Unsigned.of_to, Z2N.id.
Qed.

(** A leading zero does not change the number. *)
Lemma read_decimal_zero (s : string) :
  s <> "" -> read_decimal (String "0" s) = read_decimal s.
Proof.
  intros NE. unfold read_decimal. destruct s as [|c s]; [contradiction|].
  cbn [NilEmpty.uint_of_string].
  destruct (uint_of_char c (NilEmpty.uint_of_string s)); reflexivity.
Qed.

Lemma read_decimal_zero_fill (width : nat) (s : string) :
  s <> "" -> read_decimal (zero_fill width s) = read_decimal s.
Proof.
  intros NE. unfold zero_fill.
  induction (width - String.length s)%nat as [|k IH]; [reflexivity|].
  change (string_of_list_ascii (repeat "0"%char (S k)) ++ s)
    with (String "0" (string_of_list_ascii (repeat "0"%char k) ++ s)).
  rewrite read_decimal_zero; [exact IH|].
  destruct k; simpl; [exact NE | discriminate].
Qed.

(** Formatting keeps the entries: same number, same order, same fields. *)
Lemma format_entries_forall2 (raw : list RawEntry) (formatted : list Entry) :
  format_entries raw = Ok formatted ->
  Forall2 (fun r e => format_time (raw_start r) = Ok (time e) /\
                      text e = raw_text r /\ start e = raw_start r /\
                      duration e = raw_duration r) raw formatted.
Proof.
  revert formatted. induction raw as [|entry raw IH]; intros formatted; simpl.
  - intros H. injection H as <-. constructor.
  - destruct (format_time (raw_start entry)) as [t|e] eqn:T; cbn [bind]; [|discriminate].
    destruct (format_entries raw) as [rest|e]; cbn [bind]; [|discriminate].
    intros H. injection H as <-. constructor; [|now apply IH].
    repeat split. exact T.
Qed.

(** The formatter returns on every finite value. *)
Lemma format_time_finite_ok (q : Q) : exists t, format_time (Finite q) = Ok t.
Proof. unfold format_time. cbn. eexists. reflexivity. Qed.

End TimeMore.

Module FetchMore.
Import HandlerFacts.

(** A track found for one asked code is the first listed track with it. *)
Lemma find_among_one (ts : list Track) (code : string) (t : Track) :
  find_among ts [code] = Some t ->
  find (fun t => String.eqb (language_code t) code) ts = Some t /\
  In t ts /\ language_code t = code.
Proof.
  cbn [find_among].
  destruct (find (fun t => String.eqb (language_code t) code) ts) as [t'|] eqn:F;
    [|discriminate].
  intros H. injection H as <-. apply find_some in F. destruct F as [I E].
  apply String.eqb_eq in E. now repeat split.
Qed.

(** An unlisted code is not found. *)
Lemma find_among_unlisted (ts : list Track) (code : string) :
  ~ In code (map language_code ts) -> find_among ts [code] = None.
Proof.
  intros N. cbn [find_among].
  destruct (find (fun t => String.eqb (language_code t) code) ts) as [t|] eqn:F;
    [|reflexivity].
  exfalso. apply N. apply find_some in F. destruct F as [I E].
  apply String.eqb_eq in E. subst code. now apply in_map.
Qed.

(** The language the fetcher settles on is the asked one, ["en"], or the
    code of the first listed track. *)
Lemma select_language_cases (tl : TranscriptList) (requested : option string)
    (code : string) :
  select_language tl requested = Ok code ->
  (not_supplied requested = false /\ requested = Some code) \/
  (not_supplied requested = true /\
   In "en" (map language_code (tracks tl)) /\ code = "en") \/
  (not_supplied requested = true /\
   ~ In "en" (map language_code (tracks tl)) /\
   exists first others, tracks tl = first :: others /\ code = language_code first).
Proof.
  unfold select_language. destruct (not_supplied requested) eqn:N.
  - destruct (str_in_list "en" (map language_code (tracks tl))) eqn:E.
    + intros H. injection H as <-. right. left. apply str_in_list_In in E. now repeat split.
    + destruct (tracks tl) as [|first others] eqn:T; cbn; [discriminate|].
      intros H. injection H as <-. right. right. repeat split.
      * intros I.
        assert (E' : str_in_list "en" (map language_code (first :: others)) = true)
          by (apply str_in_list_In; exact I).
        congruence.
      * now exists first, others.
  - destruct requested as [c|]; [|discriminate].
    intros H. injection H as <-. now left.
Qed.

(** What a successful fetch went through. *)
Lemma fetch_transcript_ok (w : World) (video_url : string)
    (requested : option string) (formatted : list Entry) (code : string) :
  fetch_transcript w video_url requested = Ok (formatted, code) ->
  exists id tl track raw,
    extract_video_id video_url = Ok id /\
    list_transcripts w id = Ok tl /\
    select_language tl requested = Ok code /\
    find (fun t => String.eqb (language_code t) code) (tracks tl) = Some track /\
    In track (tracks tl) /\ language_code track = code /\
    fetch track = Ok raw /\ format_entries raw = Ok formatted.
Proof.
  unfold fetch_transcript.
  destruct (extract_video_id video_url) as [id|e] eqn:X; cbn [bind try_except];
    [|discriminate].
  destruct (list_transcripts w id) as [tl|e] eqn:L; cbn [bind try_except];
    [|discriminate].
  destruct (select_language tl requested) as [c|e] eqn:S; cbn [bind try_except];
    [|discriminate].
  unfold find_transcript.
  destruct (find_among (tracks tl) [c]) as [track|] eqn:F; cbn [bind try_except];
    [|discriminate].
  destruct (fetch track) as [raw|e] eqn:R; cbn [bind try_except]; [|discriminate].
  destruct (format_entries raw) as [fm|e] eqn:M; cbn [bind try_except]; [|discriminate].
  intros H. injection H as <- <-.
  destruct (find_among_one _ _ _ F) as [F1 [F2 F3]].
  exists id, tl, track, raw. now repeat split.
Qed.

(** The fetch once the listing is known and the language is settled. *)
Lemma fetch_transcript_after_selection (w : World) (video_url id : string)
    (requested : option string) (tl : TranscriptList) (code : string) :
  extract_video_id video_url = Ok id ->
  list_transcripts w id = Ok tl ->
  select_language tl requested = Ok code ->
  fetch_transcript w video_url requested =
  try_except
    (track <- find_transcript tl [code] ;;
     transcript <- fetch track ;;
     formatted_transcript <- format_entries transcript ;;
     Ok (formatted_transcript, code))
    (fun e =>
       Raise (HTTPException 404
                ("Error fetching transcript: " ++ exn_str (http_exception_str w) e))).
Proof.
  intros X L S. unfold fetch_transcript. rewrite X. cbn [bind]. rewrite L. cbn [bind].
  rewrite S. reflexivity.
Qed.

(** A successful pass went through a model call and the parser. *)
Lemma draft_ok (w : World) (transcript : list Entry) (draft : list Chapter) :
  generate_chapters_with_gemini w transcript = Ok draft ->
  exists response_text,
    generate_content w draft_config (draft_prompt transcript) = Ok response_text /\
    parse_draft response_text = Ok draft.
Proof.
  unfold generate_chapters_with_gemini.
  destruct (generate_content w draft_config (draft_prompt transcript))
    as [response_text|e]; cbn [bind try_except]; [|discriminate].
  destruct (parse_draft response_text) as [cs|e] eqn:P; cbn [try_except]; [|discriminate].
  intros H. injection H as <-. now exists response_text.
Qed.

Lemma refine_ok (w : World) (draft : list Chapter) (transcript : list Entry)
    (refined : list Chapter) :
  refine_chapters_with_gemini w draft transcript = Ok refined ->
  exists response_text,
    generate_content w refine_config (refine_prompt draft transcript)
    = Ok response_text /\
    parse_refined response_text = Ok refined.
Proof.
  unfold refine_chapters_with_gemini.
  destruct (generate_content w refine_config (refine_prompt draft transcript))
    as [response_text|e]; cbn [bind try_except]; [|discriminate].
  destruct (parse_refined response_text) as [cs|e] eqn:P; cbn [try_except]; [|discriminate].
  intros H. injection H as <-. now exists response_text.
Qed.

(** The handler after a failed draft. *)
Lemma generate_chapters_draft_failed (w : World) (request : VideoRequest)
    (transcript : list Entry) (detected : string) (detail : string) :
  fetch_transcript w (url request) (language request) = Ok (transcript, detected) ->
  generate_chapters_with_gemini w transcript = Raise (HTTPException 500 detail) ->
  generate_chapters w request
  = Raise (HTTPException 500
             ("An unexpected error occurred: "
              ++ http_exception_str w 500
                   ("Error processing with AI: " ++ http_exception_str w 500 detail))).
Proof.
  intros F D. unfold generate_chapters. rewrite F. cbn [bind]. rewrite D. reflexivity.
Qed.

(** Every failure of the handler is a 500 that wraps a 404 of the fetcher
    or a 500 of the model passes. *)
Lemma generate_chapters_raises_wrapped (w : World) (request : VideoRequest) (e : exn) :
  generate_chapters w request = Raise e ->
  exists code detail,
    (code = 404 \/ code = 500) /\
    e = HTTPException 500
          ("An unexpected error occurred: " ++ http_exception_str w code detail).
Proof.
  unfold generate_chapters.
  destruct (fetch_transcript w (url request) (language request))
    as [[transcript detected]|e0] eqn:F; cbn [bind].
  - match goal with
    | |- match try_except ?body ?h with _ => _ end = _ -> _ =>
        destruct body as [r|e1]; cbn [try_except is_ValueError]
    end.
    + discriminate.
    + intros H. injection H as <-. eexists 500, _. split; [now right | reflexivity].
  - destruct (fetch_transcript_raises _ _ _ _ F) as [cause ->].
    cbn [is_ValueError]. intros H. injection H as <-.
    eexists 404, _. split; [now left | reflexivity].
Qed.

(** Every entry of a formatted transcript has a finite start: the
    formatter raised on the others. *)
Lemma format_entries_finite_starts (raw : list RawEntry) (formatted : list Entry) :
  format_entries raw = Ok formatted ->
  Forall (fun entry => is_finite (start entry) = true) formatted.
Proof.
  revert formatted. induction raw as [|r raw IH]; intros formatted; simpl.
  - intros H. injection H as <-. constructor.
  - destruct (raw_start r) as [q | b |] eqn:S; try discriminate.
    destruct (format_time (Finite q)) as [t|e]; cbn [bind]; [|discriminate].
    destruct (format_entries raw) as [rest|e]; cbn [bind]; [|discriminate].
    intros H. injection H as <-. constructor; [reflexivity | now apply IH].
Qed.

(** A dict the renderer refuses holds an entry whose duration is an
    infinity or NaN. *)
Lemma not_compliant_duration (entries : list Entry) :
  Forall (fun entry => is_finite (start entry) = true) entries ->
  forallb (fun entry => is_finite (start entry) && is_finite (duration entry)) entries
  = false ->
  exists entry, In entry entries /\ is_finite (duration entry) = false.
Proof.
  induction entries as [|e entries IH]; simpl; [discriminate|].
  intros F H. inversion F as [|? ? Fe Fr]; subst. rewrite Fe in H. simpl in H.
  destruct (is_finite (duration e)) eqn:D.
  - destruct (IH Fr H) as [entry [I N]]. exists entry. split; [now right | exact N].
  - exists e. split; [now left | exact D].
Qed.

End FetchMore.

(** * More on the parser and the prompts *)

Module ParserMore.
Import PyStr StrFacts ParserFacts.

Lemma occurs_inside (x l t r : string) : occurs x t -> occurs x (l ++ t ++ r).
Proof.
  intros [a [b ->]]. exists (l ++ a), (b ++ r). now rewrite !append_assoc.
Qed.

(** A character occurs in a concatenation when it occurs in a part. *)
Lemma contains_char_append (c : ascii) (a b : string) :
  contains (String c "") (a ++ b)
  = contains (String c "") a || contains (String c "") b.
Proof.
  induction a as [|d a IH].
  - simpl. destruct b; reflexivity.
  - rewrite (contains_unfold _ (String d a ++ b)), (contains_unfold _ (String d a)).
    cbn [append starts_with]. rewrite IH.
    destruct (Ascii.eqb c d); reflexivity.
Qed.

Lemma contains_char_space (c : ascii) (l : string) :
  isspace c = false -> all_space l -> contains (String c "") l = false.
Proof.
  intros Hc. induction l as [|d l IH]; [reflexivity|].
  intros [Hd Hl]. rewrite contains_unfold. cbn [starts_with]. rewrite (IH Hl).
  destruct (Ascii.eqb_spec c d) as [-> | _]; [congruence | reflexivity].
Qed.

(** Trimming does not lose a character that is not whitespace. *)
Lemma trimmed_keeps_char (c : ascii) (s t : string) :
  isspace c = false -> trimmed s t ->
  occurs (String c "") s -> occurs (String c "") t.
Proof.
  intros Hc [[l [r [-> [Hl Hr]]]] _] O.
  apply contains_occurs in O. apply contains_occurs.
  rewrite !contains_char_append in O.
  rewrite (contains_char_space c l Hc Hl), (contains_char_space c r Hc Hr) in O.
  now rewrite orb_false_r in O.
Qed.

Lemma trimmed_inside (x s t : string) : trimmed s t -> occurs x t -> occurs x s.
Proof. intros [[l [r [-> _]]] _]. apply occurs_inside. Qed.

(** What a kept line passes on to its chapter. *)
Lemma kept_chapter_shape (line pre post ts ti : string) :
  ~ occurs (String "010"%char "") line ->
  first_cut " - " line pre post -> occurs ":" pre ->
  trimmed pre ts -> trimmed post ti ->
  occurs ":" ts /\ ~ occurs " - " ts /\
  ~ occurs (String "010"%char "") ts /\ ~ occurs (String "010"%char "") ti /\
  first_ok ts /\ last_ok ts /\ first_ok ti /\ last_ok ti.
Proof.
  intros NL F O Ts Ti.
  assert (Npre : ~ occurs " - " pre).
  { apply (UrlMore.text_before_free " - " line pre); [discriminate|].
    left. now exists post. }
  destruct F as [-> _].
  split; [now apply (trimmed_keeps_char ":"%char pre ts)|].
  split; [intros H; apply Npre; now apply (trimmed_inside _ _ _ Ts)|].
  split.
  { intros H. apply NL. apply (trimmed_inside _ _ _ Ts) in H.
    destruct H as [a [b ->]]. exists a, (b ++ " - " ++ post).
    now rewrite !append_assoc. }
  split.
  { intros H. apply NL. apply (trimmed_inside _ _ _ Ti) in H.
    destruct H as [a [b ->]]. exists (pre ++ " - " ++ a), b.
    now rewrite !append_assoc. }
  destruct Ts as [_ [A B]]. destruct Ti as [_ [C D]]. now repeat split.
Qed.

Lemma chapters_of_lines_shape (lines : list string) (cs : list Chapter) :
  Forall (fun line => ~ occurs (String "010"%char "") line) lines ->
  chapters_of_lines lines cs ->
  (List.length cs <= List.length lines)%nat /\
  Forall (fun c =>
            occurs ":" (timestamp c) /\ ~ occurs " - " (timestamp c) /\
            ~ occurs (String "010"%char "") (timestamp c) /\
            ~ occurs (String "010"%char "") (title c) /\
            first_ok (timestamp c) /\ last_ok (timestamp c) /\
            first_ok (title c) /\ last_ok (title c)) cs.
Proof.
  intros NL R. induction R as [| line pre post ts ti rest cs Y F Ts Ti R IH
                                | line rest cs N R IH].
  - split; [simpl; lia | constructor].
  - inversion NL as [|? ? NL1 NL2]; subst. destruct (IH NL2) as [L G].
    split; [simpl; lia|]. constructor; [|exact G].
    destruct Y as [_ [pre' [post' [F' O]]]].
    destruct (first_cut_unique _ _ _ _ _ _ F F') as [<- <-].
    exact (kept_chapter_shape line pre post ts ti NL1 F O Ts Ti).
  - inversion NL as [|? ? NL1 NL2]; subst. destruct (IH NL2) as [L G].
    split; [simpl; lia | exact G].
Qed.

(** *** Reading back the draft as the refine prompt writes it *)

Lemma strip_first_last (s : string) :
  strip s = s -> first_ok s /\ last_ok s.
Proof.
  intros E. pose proof (strip_trimmed s) as T. rewrite E in T.
  destruct T as [_ [A B]]. now split.
Qed.

Lemma strip_fixed (s : string) : first_ok s -> last_ok s -> strip s = s.
Proof.
  intros A B. symmetry. apply trimmed_strip. split; [|now split].
  exists "", "". simpl. rewrite append_nil_r. now repeat split.
Qed.

Lemma first_ok_append (a b : string) : a <> "" -> first_ok a -> first_ok (a ++ b).
Proof.
  intros NE A c t E. destruct a as [|d a]; [contradiction|].
  simpl in E. injection E as <- _. now apply (A d a).
Qed.

Lemma append_empty (a b : string) : a ++ b = "" -> b = "".
Proof. destruct a; simpl; [trivial | discriminate]. Qed.

Lemma last_ok_append (a b : string) : b <> "" -> last_ok b -> last_ok (a ++ b).
Proof.
  intros NE B. induction a as [|d a IH]; [exact B|].
  intros t c E. destruct t as [|d' t]; simpl in E.
  - injection E as _ E. apply append_empty in E. contradiction.
  - injection E as _ E. now apply (IH t c).
Qed.

(** A text that is neither empty nor begins or ends with whitespace. *)
Definition solid (s : string) : Prop := s <> "" /\ first_ok s /\ last_ok s.

Lemma solid_append (a m b : string) : solid a -> solid b -> solid (a ++ m ++ b).
Proof.
  intros [NA [FA _]] [NB [_ LB]]. split; [|split].
  - destruct a; [contradiction | discriminate].
  - now apply first_ok_append.
  - rewrite <- append_assoc. now apply last_ok_append.
Qed.

Lemma solid_join (sep x : string) (l : list string) :
  Forall solid (x :: l) -> solid (join sep (x :: l)).
Proof.
  revert x. induction l as [|y l IH]; intros x H.
  - now inversion H.
  - inversion H as [|? ? Hx Hl]; subst.
    change (join sep (x :: y :: l)) with (x ++ sep ++ join sep (y :: l)).
    apply solid_append; [exact Hx | now apply IH].
Qed.

(** Splitting at a character undoes joining with it, when no piece holds
    the character. *)
Lemma split_join (c : ascii) (x : string) (l : list string) :
  Forall (fun piece => ~ occurs (String c "") piece) (x :: l) ->
  split (String c "") (join (String c "") (x :: l)) = x :: l.
Proof.
  revert x. induction l as [|y l IH]; intros x H.
  - inversion H as [|? ? Hx _]; subst. simpl join.
    rewrite split_eq by discriminate.
    apply contains_false in Hx. rewrite cut_contains in Hx.
    destruct (cut (String c "") x) as [[a b]|]; [discriminate | reflexivity].
  - inversion H as [|? ? Hx Hl]; subst.
    change (join (String c "") (x :: y :: l))
      with (x ++ String c "" ++ join (String c "") (y :: l)).
    rewrite split_eq by discriminate.
    rewrite (first_cut_cut _ _ _ _
               (UrlFacts.first_cut_char c x (join (String c "") (y :: l)) Hx)).
    f_equal. now apply IH.
Qed.

(** The separator is first met right after a timestamp that does not form
    it, alone or with the separator's first two characters. *)
Lemma first_cut_after_timestamp (ts x : string) :
  ~ occurs " - " (ts ++ " -") -> first_cut " - " (ts ++ " - " ++ x) ts x.
Proof.
  intros N. split; [reflexivity|].
  intros a' b' E.
  destruct (Nat.le_gt_cases (String.length ts) (String.length a')) as [L | L];
    [exact L | exfalso].
  symmetry in E.
  destruct (append_split a' (" - " ++ b') ts (" - " ++ x) E) as [m [Hts Hm]]; [lia|].
  subst ts. rewrite length_append in L.
  destruct m as [|k1 [|k2 [|k3 m]]]; simpl in L, Hm; try lia; try discriminate.
  - injection Hm as <- <- _. apply N. exists a', "-". now rewrite !append_assoc.
  - injection Hm as <- <- <- _. apply N. exists a', (m ++ " -").
    now rewrite !append_assoc.
Qed.

Lemma well_formed_solid (c : Chapter) :
  well_formed c -> solid (timestamp c ++ " - " ++ title c).
Proof.
  intros [O [_ [_ [Sts [NT [_ Sti]]]]]].
  destruct (strip_first_last _ Sts) as [A B].
  destruct (strip_first_last _ Sti) as [C D].
  apply solid_append; split; try (split; assumption); try assumption.
  destruct O as [a [b E]]. rewrite E. destruct a; discriminate.
Qed.

Lemma well_formed_no_line_feed (c : Chapter) :
  well_formed c -> ~ occurs (String "010"%char "") (timestamp c ++ " - " ++ title c).
Proof.
  intros [_ [_ [N1 [_ [_ [N2 _]]]]]] O.
  apply contains_occurs in O. rewrite !contains_char_append in O.
  apply contains_false in N1, N2. rewrite N1, N2 in O. discriminate.
Qed.

(** The loop reads the lines of well-formed chapters back. *)
Lemma draft_loop_well_formed (cs acc : list Chapter) :
  Forall well_formed cs ->
  draft_loop (map (fun chapter => timestamp chapter ++ " - " ++ title chapter) cs) acc
  = Ok (acc ++ cs)%list.
Proof.
  revert acc. induction cs as [|c cs IH]; intros acc H.
  - simpl. now rewrite app_nil_r.
  - inversion H as [|? ? Hc Hcs]; subst.
    pose proof Hc as [O [N [_ [Sts [_ [_ Sti]]]]]].
    cbn [map].
    rewrite (draft_loop_keep _ (timestamp c) (title c)).
    + rewrite Sts, Sti, (IH _ Hcs), <- app_assoc. destruct c. reflexivity.
    + apply first_cut_cut. now apply first_cut_after_timestamp.
    + now apply contains_occurs.
Qed.

Lemma parse_draft_formatted (cs : list Chapter) :
  Forall well_formed cs -> parse_draft (initial_chapters_formatted cs) = Ok cs.
Proof.
  intros H. destruct cs as [|c cs]; [reflexivity|].
  unfold parse_draft, initial_chapters_formatted.
  set (line_of := fun chapter : Chapter => timestamp chapter ++ " - " ++ title chapter).
  assert (S : Forall solid (map line_of (c :: cs))).
  { apply Forall_map. eapply Forall_impl; [|exact H]. apply well_formed_solid. }
  assert (NL : Forall (fun piece => ~ occurs (String "010"%char "") piece)
                 (map line_of (c :: cs))).
  { apply Forall_map. eapply Forall_impl; [|exact H]. apply well_formed_no_line_feed. }
  cbn [map] in S, NL |- *.
  destruct (solid_join (String "010"%char "") _ _ S) as [_ [A B]].
  rewrite (strip_fixed _ A B), (split_join _ _ _ NL).
  exact (draft_loop_well_formed (c :: cs) [] H).
Qed.

(** *** What the prompts carry *)

Lemma occurs_join (sep x : string) (l : list string) :
  In x l -> occurs x (join sep l).
Proof.
  induction l as [|y l IH]; [contradiction|].
  intros [-> | I].
  - destruct l as [|z l].
    + exists "", "". simpl. now rewrite append_nil_r.
    + exists "", (sep ++ join sep (z :: l)). reflexivity.
  - destruct l as [|z l]; [contradiction|].
    change (join sep (y :: z :: l)) with (y ++ sep ++ join sep (z :: l)).
    destruct (IH I) as [a [b ->]]. exists (y ++ sep ++ a), b.
    now rewrite !append_assoc.
Qed.

End ParserMore.

(** * The claims of the specification *)

(** C1, on the code.  A URL with neither ["v="] nor ["youtu.be/"] makes the
    URL parser raise [ValueError("Invalid YouTube URL")]; the fetcher turns
    it into a 404, and the handler's last [except] clause turns that into a
    500.  The client receives status 500, not 400. *)
Theorem invalid_url_answers_500 :
  forall (w : World) (request : VideoRequest),
    PyStr.contains "v=" (url request) = false ->
    PyStr.contains "youtu.be/" (url request) = false ->
    extract_video_id (url request) = Raise (ValueError "Invalid YouTube URL") /\
    fetch_transcript w (url request) (language request)
    = Raise (HTTPException 404 "Error fetching transcript: Invalid YouTube URL") /\
    post_generate_chapters w request
    = mkHttpResponse 500
        (DetailBody
           ("An unexpected error occurred: "
            ++ http_exception_str w 404
                 "Error fetching transcript: Invalid YouTube URL")).
Proof.
  intros w request V Y.
  assert (X : extract_video_id (url request) = Raise (ValueError "Invalid YouTube URL")).
  { unfold extract_video_id. now rewrite V, Y. }
  assert (F : fetch_transcript w (url request) (language request)
              = Raise (HTTPException 404 "Error fetching transcript: Invalid YouTube URL")).
  { unfold fetch_transcript. rewrite X. reflexivity. }
  split; [exact X | split; [exact F|]].
  unfold post_generate_chapters.
  now rewrite (HandlerFacts.generate_chapters_fetch_failed w request _ F).
Qed.

Lemma invalid_url_answers_500_witness :
  status (post_generate_chapters sample_world
            (mkVideoRequest "https://example.com/watch" None)) = 500.
Proof.
  pose proof (invalid_url_answers_500 sample_world
                (mkVideoRequest "https://example.com/watch" None)
                eq_refl eq_refl) as [_ [_ H]].
  rewrite H. reflexivity.
Defined.

(** C2, as the code has it.  In every successful answer [full_text] is the
    texts of the answer's transcript entries, in their order, joined with
    one space between neighbours; the transcript is the one the fetcher
    returned. *)
Theorem full_text_joins_with_spaces :
  forall (w : World) (request : VideoRequest) (response : ChapterResponse),
    generate_chapters w request = Ok response ->
    full_text response = PyStr.join " " (map text (transcript response)) /\
    fetch_transcript w (url request) (language request)
    = Ok (transcript response, detected_language response).
Proof.
  intros w request response H.
  destruct (HandlerFacts.generate_chapters_ok w request response H)
    as [transcript [detected [draft [refined [id [F [_ [_ [_ ->]]]]]]]]].
  split; [reflexivity | exact F].
Qed.

Lemma full_text_joins_with_spaces_witness :
  exists response,
    generate_chapters sample_world
      (mkVideoRequest "https://www.youtube.com/watch?v=abc" None) = Ok response /\
    full_text response = "hello world".
Proof.
  destruct (generate_chapters sample_world
              (mkVideoRequest "https://www.youtube.com/watch?v=abc" None))
    as [response|e] eqn:G; [|vm_compute in G; discriminate].
  exists response. split; [reflexivity|].
  destruct (full_text_joins_with_spaces _ _ _ G) as [T _].
  rewrite T. vm_compute in G. injection G as <-. reflexivity.
Defined.

(** C2 as the specification words it fails as soon as the transcript has two
    entries: the texts ["hello"] and ["world"] give ["hello world"], while
    their concatenation is ["helloworld"]. *)
Lemma full_text_is_not_concatenation :
  exists response,
    generate_chapters sample_world
      (mkVideoRequest "https://www.youtube.com/watch?v=abc" None) = Ok response /\
    map text (transcript response) = ["hello"; "world"] /\
    full_text response = "hello world" /\
    concat_texts (map text (transcript response)) = "helloworld" /\
    full_text response <> concat_texts (map text (transcript response)).
Proof.
  eexists. split; [vm_compute; reflexivity|].
  repeat split; try reflexivity. discriminate.
Qed.

(** C3, as the code has it.  For every model response, the drafter's parser
    first trims the response, then splits it into lines (cut at every line
    feed: no line holds a line feed, and the lines joined by line feeds give
    the trimmed response back) and returns the chapters of those lines: a
    line is kept exactly when it contains [" - "] and the text before its
    first [" - "] contains a colon, a kept line gives the trimmed text before
    the first [" - "] as timestamp and the trimmed text after it as title,
    and the chapters come in the order of the lines.  The relation
    [chapters_of_lines] admits no other result.  The line
    ["02:15 - Setup and Installation"] gives the chapter
    [02:15 / Setup and Installation], and ["Random narration text"] gives
    nothing, wherever they stand among the lines. *)
Theorem parse_draft_keeps_conforming_lines :
  (forall response_text : string,
      exists stripped chapters,
        trimmed response_text stripped /\
        PyStr.join (String "010"%char "") (response_lines response_text) = stripped /\
        Forall (fun line => ~ occurs (String "010"%char "") line)
          (response_lines response_text) /\
        parse_draft response_text = Ok chapters /\
        chapters_of_lines (response_lines response_text) chapters /\
        (forall other,
            chapters_of_lines (response_lines response_text) other ->
            other = chapters)) /\
  parse_draft "02:15 - Setup and Installation"
  = Ok [mkChapter "02:15" "Setup and Installation"] /\
  parse_draft "Random narration text" = Ok [] /\
  (forall rest chapters,
      draft_loop ("02:15 - Setup and Installation" :: rest) chapters
      = draft_loop rest (chapters ++ [mkChapter "02:15" "Setup and Installation"])) /\
  (forall rest chapters,
      draft_loop ("Random narration text" :: rest) chapters
      = draft_loop rest chapters).
Proof.
  split; [|split; [|split; [|split]]].
  - intros response_text.
    destruct (ParserFacts.parse_draft_spec response_text) as [chapters [E R]].
    exists (PyStr.strip response_text), chapters.
    split; [apply StrFacts.strip_trimmed|].
    split; [apply StrFacts.join_split; discriminate|].
    split; [apply StrFacts.split_pieces; discriminate|].
    split; [exact E | split; [exact R|]].
    intros other R'. exact (ParserFacts.chapters_of_lines_functional _ _ _ R' R).
  - reflexivity.
  - reflexivity.
  - intros rest chapters. reflexivity.
  - intros rest chapters. reflexivity.
Qed.

(** C3 as the specification words it, over the lines of the response
    itself, fails both ways.  The last line of the first response conforms,
    and the specification's rule gives two chapters, yet the parser returns
    one: trimming the response took the space that ended [" - "].  The only
    line of the second response does not conform, and the rule gives no
    chapter, yet the parser returns one: trimming took the space that
    began the first [" - "]. *)
Lemma parse_draft_trims_the_response_first :
  (PyStr.split (String "010"%char "")
     ("0:1 - a" ++ String "010"%char "2:3 - ") = ["0:1 - a"; "2:3 - "] /\
   conforming "2:3 - " /\
   chapters_of_lines ["0:1 - a"; "2:3 - "]
     [mkChapter "0:1" "a"; mkChapter "2:3" ""] /\
   parse_draft ("0:1 - a" ++ String "010"%char "2:3 - ") = Ok [mkChapter "0:1" "a"]) /\
  (PyStr.split (String "010"%char "") " - a:b - c" = [" - a:b - c"] /\
   ~ conforming " - a:b - c" /\
   chapters_of_lines [" - a:b - c"] [] /\
   parse_draft " - a:b - c" = Ok [mkChapter "- a:b" "c"]).
Proof.
  assert (N : ~ conforming " - a:b - c").
  { intros H. apply ParserFacts.conforming_cut in H.
    destruct H as [pre [post [C K]]]. vm_compute in C. injection C as <- <-.
    vm_compute in K. discriminate. }
  split; [split; [reflexivity | split; [|split; [|reflexivity]]]
         | split; [reflexivity | split; [exact N | split; [|reflexivity]]]].
  - apply ParserFacts.conforming_cut. exists "2:3", "". split; reflexivity.
  - destruct (ParserFacts.draft_loop_spec ["0:1 - a"; "2:3 - "] []) as [kept [E R]].
    vm_compute in E. injection E as <-. exact R.
  - apply chapters_drop; [exact N | constructor].
Qed.

(** C4, as the code has it.  Parsing a model response never raises, in the
    drafter and in the refiner alike: what they return is the chapters of
    the lines of the trimmed response, so every such line that does not
    conform is dropped; a response none of whose lines conforms parses to
    the empty list; whenever the model call returns a text the pass returns
    the chapters parsed from it, possibly none; and a request whose two
    passes return empty lists makes the handler return its dict with those
    empty lists, sent with status 200 when the dict renders as JSON. *)
Theorem parsing_never_raises :
  forall (w : World) (transcript : list Entry) (draft : list Chapter)
         (response_text : string),
    (exists chapters, parse_draft response_text = Ok chapters) /\
    (exists chapters, parse_refined response_text = Ok chapters) /\
    (exists chapters,
        parse_draft response_text = Ok chapters /\
        parse_refined response_text = Ok chapters /\
        chapters_of_lines (response_lines response_text) chapters) /\
    (Forall (fun line => ~ conforming line) (response_lines response_text) ->
     parse_draft response_text = Ok [] /\ parse_refined response_text = Ok []) /\
    (generate_content w draft_config (draft_prompt transcript) = Ok response_text ->
     exists chapters,
       generate_chapters_with_gemini w transcript = Ok chapters /\
       parse_draft response_text = Ok chapters) /\
    (generate_content w refine_config (refine_prompt draft transcript)
     = Ok response_text ->
     exists chapters,
       refine_chapters_with_gemini w draft transcript = Ok chapters /\
       parse_refined response_text = Ok chapters) /\
    (forall request detected,
        fetch_transcript w (url request) (language request)
        = Ok (transcript, detected) ->
        generate_chapters_with_gemini w transcript = Ok [] ->
        refine_chapters_with_gemini w [] transcript = Ok [] ->
        exists response,
          generate_chapters w request = Ok response /\
          initial_chapters response = [] /\ chapters response = [] /\
          (json_compliant response = true ->
           post_generate_chapters w request
           = mkHttpResponse 200 (ChaptersBody response))).
Proof.
  intros w transcript draft response_text.
  destruct (ParserFacts.parse_draft_spec response_text) as [chapters [E R]].
  pose proof (ParserFacts.parse_refined_parse_draft response_text) as E'.
  rewrite E in E'.
  split; [now exists chapters|].
  split; [now exists chapters|].
  split; [now exists chapters|].
  split; [|split; [|split]].
  - intros H. rewrite (ParserFacts.no_conforming_line _ _ H R) in E, E'. now split.
  - intros G. exists chapters. split; [|exact E].
    unfold generate_chapters_with_gemini. rewrite G. cbn [bind]. now rewrite E.
  - intros G. exists chapters. split; [|exact E'].
    unfold refine_chapters_with_gemini. rewrite G. cbn [bind]. now rewrite E'.
  - intros request detected F D Rf.
    destruct (HandlerFacts.generate_chapters_success w request _ _ _ _ F D Rf)
      as [id [_ G]].
    eexists. split; [exact G|]. split; [reflexivity|]. split; [reflexivity|].
    intros J. unfold post_generate_chapters. rewrite G. unfold respond.
    now rewrite J.
Qed.

Lemma parsing_never_raises_witness :
  (parse_draft "Random narration text" = Ok [] /\
   parse_refined "Random narration text" = Ok []) /\
  (exists chapters,
      generate_chapters_with_gemini narration_world [] = Ok chapters /\
      parse_draft "Random narration text" = Ok chapters) /\
  (exists response,
      post_generate_chapters narration_world
        (mkVideoRequest "https://www.youtube.com/watch?v=abc" (Some "de"))
      = mkHttpResponse 200 (ChaptersBody response) /\
      initial_chapters response = [] /\ chapters response = []).
Proof.
  destruct (parsing_never_raises narration_world [] [] "Random narration text")
    as [_ [_ [_ [H3 [H4 [_ H6]]]]]].
  split; [|split].
  - apply H3.
    assert (E : response_lines "Random narration text" = ["Random narration text"])
      by reflexivity.
    rewrite E. constructor; [|constructor].
    intros [O _]. apply StrFacts.contains_occurs in O. vm_compute in O. discriminate.
  - apply H4. reflexivity.
  - destruct (H6 (mkVideoRequest "https://www.youtube.com/watch?v=abc" (Some "de"))
                "de" eq_refl eq_refl eq_refl) as [response [G [I [C J]]]].
    exists response. split; [|split; assumption].
    apply J. vm_compute in G. injection G as <-. reflexivity.
Defined.

(** C4 as the specification words it fails on a line of the response itself
    that does not conform: the only line of this response begins with
    [" - "], so nothing with a colon stands before its first [" - "], and
    yet it is not dropped: both parsers return a chapter for it. *)
Lemma non_conforming_line_can_be_kept :
  PyStr.split (String "010"%char "") " - 1:00 - Intro" = [" - 1:00 - Intro"] /\
  ~ conforming " - 1:00 - Intro" /\
  parse_draft " - 1:00 - Intro" = Ok [mkChapter "- 1:00" "Intro"] /\
  parse_refined " - 1:00 - Intro" = Ok [mkChapter "- 1:00" "Intro"].
Proof.
  split; [reflexivity | split; [|split; reflexivity]].
  intros H. apply ParserFacts.conforming_cut in H.
  destruct H as [pre [post [C K]]]. vm_compute in C. injection C as <- <-.
  vm_compute in K. discriminate.
Qed.

(** C5.  On every model response the refiner's parsing gives what the
    drafter's parsing gives: the same chapters in the same order. *)
Theorem refiner_parses_like_drafter :
  forall response_text : string,
    parse_refined response_text = parse_draft response_text.
Proof.
  intros response_text. unfold parse_refined, parse_draft.
  apply ParserFacts.refine_loop_draft_loop.
Qed.

(** C6.  When the request names no language and some listed track has the
    code ["en"], the fetcher settles on ["en"] whatever the other tracks and
    their order: it fetches the first track with that code, every result it
    returns carries ["en"] as the language, it does return once that track's
    entries are fetched and formatted, and a successful answer reports
    ["en"] as detected language. *)
Theorem en_track_is_preferred :
  forall (w : World) (video_url video_id : string) (requested : option string)
         (transcript_list : TranscriptList),
    not_supplied requested = true ->
    extract_video_id video_url = Ok video_id ->
    list_transcripts w video_id = Ok transcript_list ->
    In "en" (map language_code (tracks transcript_list)) ->
    select_language transcript_list requested = Ok "en" /\
    (forall transcript detected,
        fetch_transcript w video_url requested = Ok (transcript, detected) ->
        detected = "en") /\
    (exists track,
        find_transcript transcript_list ["en"] = Ok track /\
        language_code track = "en" /\ In track (tracks transcript_list) /\
        forall raw formatted,
          fetch track = Ok raw -> format_entries raw = Ok formatted ->
          fetch_transcript w video_url requested = Ok (formatted, "en")) /\
    (forall response,
        generate_chapters w (mkVideoRequest video_url requested) = Ok response ->
        detected_language response = "en").
Proof.
  intros w video_url video_id requested transcript_list N X L I.
  pose proof (HandlerFacts.select_language_en transcript_list requested N I) as S.
  destruct (HandlerFacts.find_listed_code "en" (tracks transcript_list) I)
    as [track [Fd [Ec It]]].
  assert (D : forall transcript detected,
             fetch_transcript w video_url requested = Ok (transcript, detected) ->
             detected = "en").
  { intros transcript detected. unfold fetch_transcript.
    rewrite X. cbn [bind]. rewrite L. cbn [bind]. rewrite S. cbn [bind].
    destruct (find_transcript transcript_list ["en"]) as [t|e];
      cbn [bind try_except]; [|discriminate].
    destruct (fetch t) as [raw|e]; cbn [bind try_except]; [|discriminate].
    destruct (format_entries raw) as [formatted|e]; cbn [bind try_except];
      [|discriminate].
    intros H. now injection H as _ <-. }
  split; [exact S | split; [exact D | split]].
  - exists track. split; [|split; [exact Ec | split; [exact It|]]].
    + unfold find_transcript. cbn [find_among]. now rewrite Fd.
    + intros raw formatted Fr Fo. unfold fetch_transcript.
      rewrite X. cbn [bind]. rewrite L. cbn [bind]. rewrite S. cbn [bind].
      unfold find_transcript. cbn [find_among]. rewrite Fd. cbn [bind].
      rewrite Fr. cbn [bind].
      rewrite Fo. reflexivity.
  - intros response G.
    destruct (HandlerFacts.generate_chapters_ok _ _ _ G)
      as [transcript [detected [draft [refined [id [F [_ [_ [_ ->]]]]]]]]].
    cbn in F |- *. exact (D _ _ F).
Qed.

Lemma en_track_is_preferred_witness :
  select_language sample_tracks None = Ok "en" /\
  exists response,
    generate_chapters sample_world
      (mkVideoRequest "https://www.youtube.com/watch?v=abc" None) = Ok response /\
    detected_language response = "en".
Proof.
  destruct (en_track_is_preferred sample_world
              "https://www.youtube.com/watch?v=abc" "abc" None sample_tracks
              eq_refl eq_refl eq_refl (or_intror (or_introl eq_refl)))
    as [S [_ [_ H]]].
  split; [exact S|].
  destruct (generate_chapters sample_world
              (mkVideoRequest "https://www.youtube.com/watch?v=abc" None))
    as [response|e] eqn:G; [|vm_compute in G; discriminate].
  exists response. split; [reflexivity | now apply H].
Defined.

(** C7, as the code has it.  For every URL that contains ["v="], the
    extracted identifier is the text after the first ["v="] up to the next
    ["v="] or the end of the string, cut at its first ["&"] if it has one.
    In particular, when the first ["v="] is followed by [ID&extra] and [ID]
    contains neither ["&"] nor ["v="], the identifier is exactly [ID]. *)
Theorem extract_video_id_first_v :
  forall url : string,
    occurs "v=" url ->
    (exists pre rest seg id,
        first_cut "v=" url pre rest /\
        text_before "v=" rest seg /\ text_before "&" seg id /\
        extract_video_id url = Ok id) /\
    (forall pre rest seg id,
        first_cut "v=" url pre rest ->
        text_before "v=" rest seg -> text_before "&" seg id ->
        extract_video_id url = Ok id) /\
    (forall pre ID extra,
        first_cut "v=" url pre (ID ++ "&" ++ extra) ->
        ~ occurs "&" ID -> ~ occurs "v=" ID ->
        extract_video_id url = Ok ID).
Proof.
  intros url O. split; [|split].
  - destruct (UrlFacts.occurs_first_cut _ _ O) as [pre [rest F]].
    destruct (UrlFacts.text_before_total "v=" rest) as [seg S].
    destruct (UrlFacts.text_before_total "&" seg) as [id I].
    exists pre, rest, seg, id. repeat split; try assumption.
    + now destruct F.
    + now destruct F.
    + exact (UrlFacts.extract_video_id_v _ _ _ _ _ F S I).
  - intros pre rest seg id. apply UrlFacts.extract_video_id_v.
  - intros pre ID extra. apply UrlFacts.extract_video_id_amp.
Qed.

Lemma extract_video_id_first_v_witness :
  extract_video_id "https://www.youtube.com/watch?v=dQw4w9WgXcQ&t=42"
  = Ok "dQw4w9WgXcQ".
Proof.
  assert (O : occurs "v=" "https://www.youtube.com/watch?v=dQw4w9WgXcQ&t=42").
  { apply StrFacts.contains_occurs. reflexivity. }
  destruct (extract_video_id_first_v _ O) as [_ [_ H]].
  apply (H "https://www.youtube.com/watch?" "dQw4w9WgXcQ" "t=42").
  - apply StrFacts.cut_first. reflexivity.
  - apply StrFacts.contains_false. reflexivity.
  - apply StrFacts.contains_false. reflexivity.
Defined.

(** C7 as the specification words it fails on two kinds of URL: one where an
    earlier ["v="] precedes [v=ID&extra], and one where a second ["v="]
    comes before the next ["&"]. *)
Lemma extract_video_id_not_always_ID :
  (occurs "v=ID&extra" "https://example.com/watch?dev=1&v=ID&extra" /\
   extract_video_id "https://example.com/watch?dev=1&v=ID&extra" = Ok "1" /\
   extract_video_id "https://example.com/watch?dev=1&v=ID&extra" <> Ok "ID") /\
  (first_cut "v=" "https://www.youtube.com/watch?v=abv=cd&t=1"
     "https://www.youtube.com/watch?" "abv=cd&t=1" /\
   first_cut "&" "abv=cd&t=1" "abv=cd" "t=1" /\
   extract_video_id "https://www.youtube.com/watch?v=abv=cd&t=1" = Ok "ab" /\
   extract_video_id "https://www.youtube.com/watch?v=abv=cd&t=1" <> Ok "abv=cd").
Proof.
  split; [split; [|split] | split; [|split; [|split]]].
  - apply StrFacts.contains_occurs. reflexivity.
  - reflexivity.
  - discriminate.
  - apply StrFacts.cut_first. reflexivity.
  - apply StrFacts.cut_first. reflexivity.
  - reflexivity.
  - discriminate.
Qed.

(** C8, as the code has it.  For every float that is finite, non-negative
    and below [2 ** 53], the formatter returns the minutes [floor(s / 60)]
    zero-padded to at least two characters, a colon, and the seconds
    [floor(s mod 60)], which lie in [[0, 59]] and take exactly two
    characters; [0] gives ["00:00"], [65] gives ["01:05"], [3599] gives
    ["59:59"] and [3600] gives ["60:00"]. *)
Theorem format_time_mm_ss :
  forall q : Q,
    is_binary64 q = true ->
    (0 <= q)%Q -> (q < inject_Z (2 ^ 53))%Q ->
    let minutes := Qfloor (q / 60) in
    let seconds := Qfloor (q - 60 * inject_Z minutes) in
    format_time (Finite q)
    = Ok (zero_fill 2 (decimal minutes) ++ ":" ++ zero_fill 2 (decimal seconds)) /\
    0 <= minutes /\ 0 <= seconds < 60 /\
    (2 <= String.length (zero_fill 2 (decimal minutes)))%nat /\
    String.length (zero_fill 2 (decimal seconds)) = 2%nat /\
    format_time (Finite 0) = Ok "00:00" /\
    format_time (Finite 65) = Ok "01:05" /\
    format_time (Finite 3599) = Ok "59:59" /\
    format_time (Finite 3600) = Ok "60:00".
Proof.
  intros q _ H B minutes seconds.
  split; [exact (TimeFacts.format_time_finite q H B)|].
  split; [exact (TimeFacts.minutes_nonneg q H)|].
  split; [exact (TimeFacts.seconds_range q)|].
  split; [rewrite TimeFacts.zero_fill_length; lia|].
  split; [exact (TimeFacts.two_digits _ (TimeFacts.seconds_range q))|].
  repeat split; vm_compute; reflexivity.
Qed.

Lemma format_time_mm_ss_witness :
  format_time (Finite (251 # 2)) = Ok "02:05".
Proof.
  assert (F : is_binary64 (251 # 2) = true) by (vm_compute; reflexivity).
  assert (H : (0 <= 251 # 2)%Q) by (vm_compute; discriminate).
  assert (B : (251 # 2 < inject_Z (2 ^ 53))%Q) by (vm_compute; reflexivity).
  exact (proj1 (format_time_mm_ss (251 # 2) F H B)).
Defined.

(** C8 as the specification words it fails on a large float: the value
    [2 ** 57 + 224] is a float, its exact quotient by 60 has the floor
    [2401919801264268], and the formatter prints [2401919801264267], because
    the subtraction and the division inside [//] are rounded. *)
Lemma format_time_rounds_large_values :
  is_binary64 (inject_Z (2 ^ 57 + 224)) = true /\
  2 ^ 57 + 224 = 144115188075856096 /\
  Qfloor (inject_Z (2 ^ 57 + 224) / 60) = 2401919801264268 /\
  format_time (Finite (inject_Z (2 ^ 57 + 224))) = Ok "2401919801264267:16" /\
  zero_fill 2 (decimal 2401919801264268) = "2401919801264268" /\
  "2401919801264267:16" <> "2401919801264268:16".
Proof.
  repeat split; try (vm_compute; reflexivity). discriminate.
Qed.

(** C9, on the code.  With no language asked and an empty track listing the
    fetcher's [next(iter(...))] raises [StopIteration], which the fetcher
    turns into a 404; the handler's last [except] clause catches that 404
    and the client receives status 500. *)
Theorem empty_listing_answers_500 :
  forall (w : World) (request : VideoRequest) (video_id : string)
         (transcript_list : TranscriptList),
    not_supplied (language request) = true ->
    extract_video_id (url request) = Ok video_id ->
    list_transcripts w video_id = Ok transcript_list ->
    tracks transcript_list = [] ->
    select_language transcript_list (language request) = Raise StopIteration /\
    fetch_transcript w (url request) (language request)
    = Raise (HTTPException 404 "Error fetching transcript: ") /\
    post_generate_chapters w request
    = mkHttpResponse 500
        (DetailBody
           ("An unexpected error occurred: "
            ++ http_exception_str w 404 "Error fetching transcript: ")).
Proof.
  intros w request video_id transcript_list N X L E.
  assert (S : select_language transcript_list (language request) = Raise StopIteration).
  { unfold select_language. rewrite N, E. reflexivity. }
  assert (F : fetch_transcript w (url request) (language request)
              = Raise (HTTPException 404 "Error fetching transcript: ")).
  { unfold fetch_transcript. rewrite X. cbn [bind]. rewrite L. cbn [bind].
    rewrite S. reflexivity. }
  split; [exact S | split; [exact F|]].
  unfold post_generate_chapters.
  now rewrite (HandlerFacts.generate_chapters_fetch_failed w request _ F).
Qed.

Lemma empty_listing_answers_500_witness :
  status (post_generate_chapters no_tracks_world
            (mkVideoRequest "https://www.youtube.com/watch?v=abc" None)) = 500.
Proof.
  pose proof (empty_listing_answers_500 no_tracks_world
                (mkVideoRequest "https://www.youtube.com/watch?v=abc" None)
                "abc" (mkTranscriptList [] (fun _ => ExternalError false "no transcript"))
                eq_refl eq_refl eq_refl eq_refl) as [_ [_ H]].
  rewrite H. reflexivity.
Defined.

(** C10.  When the fetch and the draft succeed and the refinement fails, the
    failure is a failed model call, the client receives status 500, and the
    body is the single [detail] string, built from the text of the failure
    alone: neither the transcript nor [full_text] nor the draft enters it. *)
Theorem refinement_failure_answers_500 :
  forall (w : World) (request : VideoRequest) (transcript : list Entry)
         (detected : string) (draft : list Chapter) (e : exn),
    fetch_transcript w (url request) (language request) = Ok (transcript, detected) ->
    generate_chapters_with_gemini w transcript = Ok draft ->
    refine_chapters_with_gemini w draft transcript = Raise e ->
    exists cause,
      generate_content w refine_config (refine_prompt draft transcript) = Raise cause /\
      post_generate_chapters w request
      = mkHttpResponse 500
          (DetailBody
             ("An unexpected error occurred: "
              ++ http_exception_str w 500
                   ("Error processing with AI: "
                    ++ http_exception_str w 500
                         ("Error refining chapters with AI: "
                          ++ exn_str (http_exception_str w) cause)))).
Proof.
  intros w request transcript detected draft e F D R.
  destruct (HandlerFacts.refine_raises w draft transcript e R) as [cause [G ->]].
  exists cause. split; [exact G|].
  unfold post_generate_chapters.
  now rewrite (HandlerFacts.generate_chapters_refine_failed w request _ _ _ _ F D R).
Qed.

Lemma refinement_failure_answers_500_witness :
  post_generate_chapters refine_fails_world
    (mkVideoRequest "https://www.youtube.com/watch?v=abc" None)
  = mkHttpResponse 500
      (DetailBody
         "An unexpected error occurred: 500: Error processing with AI: 500: Error refining chapters with AI: quota exceeded").
Proof.
  destruct (refinement_failure_answers_500 refine_fails_world
              (mkVideoRequest "https://www.youtube.com/watch?v=abc" None)
              [ mkEntry "00:00" "hello" (Finite 0) (Finite (5 # 2));
                mkEntry "01:05" "world" (Finite (65 # 1)) (Finite 4) ]
              "en" [mkChapter "00:00" "Introduction"]
              (HTTPException 500 "Error refining chapters with AI: quota exceeded")
              eq_refl eq_refl eq_refl) as [cause [G H]].
  rewrite H. vm_compute in G. injection G as <-. reflexivity.
Defined.


(** * Further properties of the code *)

(** X1.  The URL parser returns an identifier exactly when the URL contains
    ["v="] or ["youtu.be/"], and raises [ValueError("Invalid YouTube URL")]
    otherwise; its two indexings [[1]] never raise [IndexError]. *)
Theorem extract_video_id_total :
  forall url : string,
    (exists id, extract_video_id url = Ok id /\
                (occurs "v=" url \/ occurs "youtu.be/" url)) \/
    (extract_video_id url = Raise (ValueError "Invalid YouTube URL") /\
     ~ occurs "v=" url /\ ~ occurs "youtu.be/" url).
Proof.
  intros url.
  destruct (UrlMore.extract_video_id_cases url)
    as [[pre [rest [seg [id [F [_ [_ X]]]]]]]
       | [[NV [pre [rest [seg [id [F [_ [_ X]]]]]]]] | [NV [NY X]]]].
  - left. exists id. split; [exact X|]. left. destruct F as [-> _]. now exists pre, rest.
  - left. exists id. split; [exact X|]. right. destruct F as [-> _]. now exists pre, rest.
  - right. now repeat split.
Qed.

(** X2.  For a URL without ["v="] that contains ["youtu.be/"], the identifier
    is the text after the first ["youtu.be/"] up to the next ["youtu.be/"] or
    the end, cut at its first ["?"]; when the first ["youtu.be/"] is followed
    by [ID?query] and [ID] contains neither ["?"] nor ["youtu.be/"], the
    identifier is [ID]. *)
Theorem extract_video_id_short_link :
  forall url : string,
    ~ occurs "v=" url -> occurs "youtu.be/" url ->
    (exists pre rest seg id,
        first_cut "youtu.be/" url pre rest /\
        text_before "youtu.be/" rest seg /\ text_before "?" seg id /\
        extract_video_id url = Ok id) /\
    (forall pre rest seg id,
        first_cut "youtu.be/" url pre rest ->
        text_before "youtu.be/" rest seg -> text_before "?" seg id ->
        extract_video_id url = Ok id) /\
    (forall pre ID query,
        first_cut "youtu.be/" url pre (ID ++ "?" ++ query) ->
        ~ occurs "?" ID -> ~ occurs "youtu.be/" ID ->
        extract_video_id url = Ok ID).
Proof.
  intros url NV O. split; [|split].
  - destruct (UrlFacts.occurs_first_cut _ _ O) as [pre [rest F]].
    destruct (UrlFacts.text_before_total "youtu.be/" rest) as [seg S].
    destruct (UrlFacts.text_before_total "?" seg) as [id I].
    exists pre, rest, seg, id. repeat split; try assumption;
      try (now destruct F). exact (UrlMore.extract_video_id_short _ _ _ _ _ NV F S I).
  - intros pre rest seg id. now apply UrlMore.extract_video_id_short.
  - intros pre ID query. now apply UrlMore.extract_video_id_question.
Qed.

Lemma extract_video_id_short_link_witness :
  extract_video_id "https://youtu.be/dQw4w9WgXcQ?t=42" = Ok "dQw4w9WgXcQ".
Proof.
  assert (NV : ~ occurs "v=" "https://youtu.be/dQw4w9WgXcQ?t=42").
  { apply StrFacts.contains_false. reflexivity. }
  assert (O : occurs "youtu.be/" "https://youtu.be/dQw4w9WgXcQ?t=42").
  { apply StrFacts.contains_occurs. reflexivity. }
  destruct (extract_video_id_short_link _ NV O) as [_ [_ H]].
  apply (H "https://" "dQw4w9WgXcQ" "t=42").
  - apply StrFacts.cut_first. reflexivity.
  - apply StrFacts.contains_false. reflexivity.
  - apply StrFacts.contains_false. reflexivity.
Defined.

(** X3.  An identifier taken by the ["v="] rule contains neither ["&"] nor
    ["v="]; one taken by the ["youtu.be/"] rule contains neither ["?"] nor
    ["youtu.be/"]. *)
Theorem extract_video_id_separator_free :
  forall url id : string,
    extract_video_id url = Ok id ->
    (occurs "v=" url -> ~ occurs "&" id /\ ~ occurs "v=" id) /\
    (~ occurs "v=" url -> ~ occurs "?" id /\ ~ occurs "youtu.be/" id).
Proof.
  intros url id X.
  destruct (UrlMore.extract_video_id_cases url)
    as [[pre [rest [seg [id' [F [S [I X']]]]]]]
       | [[NV [pre [rest [seg [id' [F [S [I X']]]]]]]] | [NV [NY X']]]];
    rewrite X in X'; try discriminate; injection X' as <-.
  - split.
    + intros _.
      destruct (UrlMore.twice_before_free "v=" "&" rest seg id) as [A B];
        try assumption; try discriminate. now split.
    + intros NV. exfalso. apply NV. destruct F as [-> _]. now exists pre, rest.
  - split.
    + intros O. contradiction.
    + intros _.
      destruct (UrlMore.twice_before_free "youtu.be/" "?" rest seg id) as [A B];
        try assumption; try discriminate. now split.
Qed.

Lemma extract_video_id_separator_free_witness :
  ~ occurs "&" "abc" /\ ~ occurs "v=" "abc".
Proof.
  apply (extract_video_id_separator_free
           "https://www.youtube.com/watch?v=abc&list=xv=1" "abc" eq_refl).
  apply StrFacts.contains_occurs. reflexivity.
Defined.

(** X4.  The identifier is not validated: when the first ["v="] ends the URL
    or is followed at once by ["&"], the parser returns the empty string,
    not an error. *)
Theorem extract_video_id_may_be_empty :
  forall url pre rest : string,
    first_cut "v=" url pre rest ->
    rest = "" \/ (exists x, rest = "&" ++ x) ->
    extract_video_id url = Ok "".
Proof.
  intros url pre rest F H.
  destruct (UrlFacts.text_before_total "v=" rest) as [seg S].
  apply (UrlFacts.extract_video_id_v url pre rest seg "" F S).
  apply UrlFacts.text_before_cut.
  apply UrlFacts.text_before_cut in S. subst seg.
  destruct H as [-> | [x ->]]; [reflexivity|].
  rewrite (StrFacts.cut_unfold "v=" ("&" ++ x)). cbn.
  destruct (PyStr.cut "v=" x) as [[a b]|]; reflexivity.
Qed.

Lemma extract_video_id_may_be_empty_witness :
  extract_video_id "https://www.youtube.com/watch?v=&t=10" = Ok "".
Proof.
  apply (extract_video_id_may_be_empty _ "https://www.youtube.com/watch?" "&t=10").
  - apply StrFacts.cut_first. reflexivity.
  - right. now exists "t=10".
Defined.

(** X5.  The display time of a float that is finite, non-negative and
    below [2 ** 53] reads back as whole seconds: the text before the colon
    is a decimal number [m], the two characters after it a decimal number
    [s] below 60, and [60 * m + s] is the value rounded down. *)
Theorem format_time_reads_back :
  forall q : Q,
    is_binary64 q = true ->
    (0 <= q)%Q -> (q < inject_Z (2 ^ 53))%Q ->
    exists mm ss m s,
      format_time (Finite q) = Ok (mm ++ ":" ++ ss) /\
      read_decimal mm = Some m /\ read_decimal ss = Some s /\
      String.length ss = 2%nat /\ 0 <= s < 60 /\
      60 * m + s = Qfloor q.
Proof.
  intros q _ H B.
  exists (zero_fill 2 (decimal (Qfloor (q / inject_Z 60)))),
         (zero_fill 2
            (decimal (Qfloor (q - inject_Z 60 * inject_Z (Qfloor (q / inject_Z 60)))))),
         (Qfloor (q / inject_Z 60)),
         (Qfloor (q - inject_Z 60 * inject_Z (Qfloor (q / inject_Z 60)))).
  pose proof (TimeFacts.seconds_range q) as R.
  split; [exact (TimeFacts.format_time_finite q H B)|].
  split.
  { rewrite TimeMore.read_decimal_zero_fill by apply TimeMore.decimal_not_empty.
    apply TimeMore.read_decimal_decimal. now apply TimeFacts.minutes_nonneg. }
  split.
  { rewrite TimeMore.read_decimal_zero_fill by apply TimeMore.decimal_not_empty.
    apply TimeMore.read_decimal_decimal. lia. }
  split; [now apply TimeFacts.two_digits|].
  split; [exact R | apply TimeMore.minutes_seconds_total].
Qed.

Lemma format_time_reads_back_witness :
  exists mm ss m s,
    format_time (Finite (15015 # 2)) = Ok (mm ++ ":" ++ ss) /\
    read_decimal mm = Some m /\ read_decimal ss = Some s /\
    String.length ss = 2%nat /\ 0 <= s < 60 /\
    60 * m + s = 7507.
Proof.
  assert (F : is_binary64 (15015 # 2) = true) by (vm_compute; reflexivity).
  assert (H : (0 <= 15015 # 2)%Q) by (vm_compute; discriminate).
  assert (B : (15015 # 2 < inject_Z (2 ^ 53))%Q) by (vm_compute; reflexivity).
  exact (format_time_reads_back (15015 # 2) F H B).
Defined.

(** X6.  The formatted transcript has the fetched entries one for one, in
    the same order: each keeps its text, start and duration, and its [time]
    is the formatted start. *)
Theorem format_entries_keeps_entries :
  forall (raw : list RawEntry) (formatted : list Entry),
    format_entries raw = Ok formatted ->
    List.length formatted = List.length raw /\
    Forall2 (fun r e => format_time (raw_start r) = Ok (time e) /\
                        text e = raw_text r /\ start e = raw_start r /\
                        duration e = raw_duration r) raw formatted.
Proof.
  intros raw formatted H.
  pose proof (TimeMore.format_entries_forall2 raw formatted H) as F.
  split; [symmetry; exact (Forall2_length F) | exact F].
Qed.

Lemma format_entries_keeps_entries_witness :
  List.length
    [ mkEntry "00:00" "hello" (Finite 0) (Finite (5 # 2));
      mkEntry "01:05" "world" (Finite (65 # 1)) (Finite 4) ]
  = List.length sample_entries.
Proof.
  exact (proj1 (format_entries_keeps_entries sample_entries _ eq_refl)).
Defined.

(** X7.  The formatting of a fetched transcript succeeds exactly when every
    start time is finite: one NaN or infinite start makes the whole list
    fail, and a finite start never does. *)
Theorem format_entries_needs_finite_starts :
  forall raw : list RawEntry,
    (exists formatted, format_entries raw = Ok formatted) <->
    Forall (fun r => exists q, raw_start r = Finite q) raw.
Proof.
  intros raw. induction raw as [|entry raw IH]; simpl.
  - split; [constructor | intros _; now exists []].
  - split.
    + intros [formatted H].
      destruct (raw_start entry) as [q | b |] eqn:S; try discriminate.
      destruct (format_time (Finite q)) as [t|e]; cbn [bind] in H; [|discriminate].
      destruct (format_entries raw) as [rest|e]; cbn [bind] in H; [|discriminate].
      constructor; [now exists q | apply IH; now exists rest].
    + intros H. inversion H as [|? ? [q Hq] Hr]; subst.
      apply IH in Hr. destruct Hr as [rest ->]. rewrite Hq.
      destruct (TimeMore.format_time_finite_ok q) as [t ->]. cbn [bind]. eexists. reflexivity.
Qed.

(** X8.  A successful fetch returns the entries of a listed track and that
    track's own language code: the identifier was parsed, the listing was
    obtained, and the track is the first listed one with the returned code;
    when the request names a language, the returned code is that one. *)
Theorem fetch_transcript_returns_listed_track :
  forall (w : World) (video_url : string) (requested : option string)
         (formatted : list Entry) (code : string),
    fetch_transcript w video_url requested = Ok (formatted, code) ->
    (exists id tl track raw,
        extract_video_id video_url = Ok id /\
        list_transcripts w id = Ok tl /\
        find (fun t => String.eqb (language_code t) code) (tracks tl) = Some track /\
        In track (tracks tl) /\ language_code track = code /\
        fetch track = Ok raw /\ format_entries raw = Ok formatted) /\
    (not_supplied requested = false -> requested = Some code).
Proof.
  intros w video_url requested formatted code H.
  destruct (FetchMore.fetch_transcript_ok _ _ _ _ _ H)
    as [id [tl [track [raw [X [L [S [F [I [E [R M]]]]]]]]]]].
  split.
  - exists id, tl, track, raw. now repeat split.
  - intros N.
    destruct (FetchMore.select_language_cases _ _ _ S) as [[_ Q] | [[N' _] | [N' _]]];
      [exact Q | congruence | congruence].
Qed.

Lemma fetch_transcript_returns_listed_track_witness :
  exists id tl track raw,
    extract_video_id "https://youtu.be/abc" = Ok id /\
    list_transcripts sample_world id = Ok tl /\
    find (fun t => String.eqb (language_code t) "de") (tracks tl) = Some track /\
    In track (tracks tl) /\ language_code track = "de" /\
    fetch track = Ok raw /\ format_entries raw = Ok [].
Proof.
  exact (proj1 (fetch_transcript_returns_listed_track sample_world
                  "https://youtu.be/abc" (Some "de") [] "de" eq_refl)).
Defined.

(** X9.  A language named in the request is never replaced: when no listed
    track carries it, the fetcher fails with the provider's not-found error
    wrapped as a 404, whatever other tracks (["en"] included) are listed,
    and the client receives status 500. *)
Theorem requested_language_has_no_fallback :
  forall (w : World) (request : VideoRequest) (code id : string)
         (tl : TranscriptList),
    language request = Some code -> code <> "" ->
    extract_video_id (url request) = Ok id ->
    list_transcripts w id = Ok tl ->
    ~ In code (map language_code (tracks tl)) ->
    fetch_transcript w (url request) (language request)
    = Raise (HTTPException 404
               ("Error fetching transcript: "
                ++ exn_str (http_exception_str w) (no_transcript_found tl [code]))) /\
    status (post_generate_chapters w request) = 500.
Proof.
  intros w request code id tl Q NE X L NI.
  assert (S : select_language tl (language request) = Ok code).
  { rewrite Q. unfold select_language, not_supplied.
    destruct (String.eqb_spec code "") as [E | _]; [contradiction | reflexivity]. }
  assert (F : fetch_transcript w (url request) (language request)
              = Raise (HTTPException 404
                         ("Error fetching transcript: "
                          ++ exn_str (http_exception_str w)
                               (no_transcript_found tl [code])))).
  { rewrite (FetchMore.fetch_transcript_after_selection _ _ _ _ _ _ X L S).
    unfold find_transcript. now rewrite (FetchMore.find_among_unlisted _ _ NI). }
  split; [exact F|].
  unfold post_generate_chapters.
  now rewrite (HandlerFacts.generate_chapters_fetch_failed w request _ F).
Qed.

Lemma requested_language_has_no_fallback_witness :
  status (post_generate_chapters sample_world
            (mkVideoRequest "https://www.youtube.com/watch?v=abc" (Some "fr"))) = 500.
Proof.
  refine (proj2 (requested_language_has_no_fallback sample_world
                   (mkVideoRequest "https://www.youtube.com/watch?v=abc" (Some "fr"))
                   "fr" "abc" sample_tracks eq_refl _ eq_refl eq_refl _)).
  - discriminate.
  - simpl. intros [H | [H | H]]; try discriminate. exact H.
Defined.

(** X10.  With no language named and no ["en"] track, the fetcher takes the
    first listed track: it settles on that track's code and returns that
    track's entries once they are fetched and formatted. *)
Theorem first_track_is_the_fallback :
  forall (w : World) (video_url id : string) (requested : option string)
         (tl : TranscriptList) (first : Track) (others : list Track),
    not_supplied requested = true ->
    extract_video_id video_url = Ok id ->
    list_transcripts w id = Ok tl ->
    tracks tl = first :: others ->
    ~ In "en" (map language_code (tracks tl)) ->
    select_language tl requested = Ok (language_code first) /\
    (forall raw formatted,
        fetch first = Ok raw -> format_entries raw = Ok formatted ->
        fetch_transcript w video_url requested
        = Ok (formatted, language_code first)).
Proof.
  intros w video_url id requested tl first others N X L T NI.
  assert (S : select_language tl requested = Ok (language_code first)).
  { unfold select_language. rewrite N.
    destruct (str_in_list "en" (map language_code (tracks tl))) eqn:E.
    - apply HandlerFacts.str_in_list_In in E. contradiction.
    - rewrite T. reflexivity. }
  split; [exact S|].
  intros raw formatted R M.
  rewrite (FetchMore.fetch_transcript_after_selection _ _ _ _ _ _ X L S).
  unfold find_transcript. rewrite T. cbn [find_among find].
  rewrite String.eqb_refl. cbn [bind]. rewrite R. cbn [bind]. rewrite M. reflexivity.
Qed.

Lemma first_track_is_the_fallback_witness :
  fetch_transcript no_english_world "https://youtu.be/abc" None
  = Ok ([ mkEntry "00:00" "hello" (Finite 0) (Finite (5 # 2));
          mkEntry "01:05" "world" (Finite (65 # 1)) (Finite 4) ], "de").
Proof.
  refine (proj2 (first_track_is_the_fallback no_english_world
                   "https://youtu.be/abc" "abc" None no_english_tracks
                   (mkTrack "de" (Ok sample_entries)) [mkTrack "fr" (Ok [])]
                   eq_refl eq_refl eq_refl eq_refl _) sample_entries _ eq_refl eq_refl).
  simpl. intros [H | [H | H]]; try discriminate. exact H.
Defined.

(** X11.  The endpoint answers in one of three ways: with status 200 and
    the handler's dict; with a plain-text 500 when the handler returned its
    dict but the renderer refuses it, which happens only when some entry's
    duration is an infinity or NaN; or with status 500 and a detail that
    starts with ["An unexpected error occurred: "] and wraps a 404 of the
    fetcher or a 500 of the model passes.  Statuses 400 and 404 never reach
    the client. *)
Theorem endpoint_answers_200_or_500 :
  forall (w : World) (request : VideoRequest),
    (exists response,
        generate_chapters w request = Ok response /\
        json_compliant response = true /\
        post_generate_chapters w request
        = mkHttpResponse 200 (ChaptersBody response)) \/
    (exists response entry,
        generate_chapters w request = Ok response /\
        In entry (transcript response) /\ is_finite (duration entry) = false /\
        post_generate_chapters w request
        = mkHttpResponse 500 (TextBody "Internal Server Error")) \/
    (exists code detail,
        (code = 404 \/ code = 500) /\
        post_generate_chapters w request
        = mkHttpResponse 500
            (DetailBody
               ("An unexpected error occurred: "
                ++ http_exception_str w code detail))).
Proof.
  intros w request. unfold post_generate_chapters.
  destruct (generate_chapters w request) as [response|e] eqn:G.
  - unfold respond. destruct (json_compliant response) eqn:J.
    + left. now exists response.
    + right. left.
      destruct (HandlerFacts.generate_chapters_ok _ _ _ G)
        as [transcript [detected [draft [refined [id [F [_ [_ [_ E]]]]]]]]].
      destruct (FetchMore.fetch_transcript_ok _ _ _ _ _ F)
        as [id' [tl [track [raw [_ [_ [_ [_ [_ [_ [_ M]]]]]]]]]]].
      pose proof (FetchMore.format_entries_finite_starts _ _ M) as S.
      subst response. unfold json_compliant in J. cbn in J.
      destruct (FetchMore.not_compliant_duration _ S J) as [entry [I N]].
      eexists. exists entry. split; [reflexivity|]. now repeat split.
  - right. right. destruct (FetchMore.generate_chapters_raises_wrapped _ _ _ G)
      as [code [detail [C ->]]].
    now exists code, detail.
Qed.

(** X12.  A successful answer is made of the steps' results: [success] is
    true, [video_id] is the parsed identifier, the draft chapters are parsed
    from the model's answer to the draft prompt over the answer's
    transcript, and the final chapters from its answer to the refine prompt
    built from those very draft chapters and the same transcript. *)
Theorem successful_answer_chains_the_passes :
  forall (w : World) (request : VideoRequest) (response : ChapterResponse),
    generate_chapters w request = Ok response ->
    success response = true /\
    extract_video_id (url request) = Ok (video_id response) /\
    exists draft_text refined_text,
      generate_content w draft_config (draft_prompt (transcript response))
      = Ok draft_text /\
      parse_draft draft_text = Ok (initial_chapters response) /\
      generate_content w refine_config
        (refine_prompt (initial_chapters response) (transcript response))
      = Ok refined_text /\
      parse_refined refined_text = Ok (chapters response).
Proof.
  intros w request response H.
  destruct (HandlerFacts.generate_chapters_ok w request response H)
    as [transcript [detected [draft [refined [id [F [D [R [X ->]]]]]]]]].
  destruct (FetchMore.draft_ok _ _ _ D) as [draft_text [G1 P1]].
  destruct (FetchMore.refine_ok _ _ _ _ R) as [refined_text [G2 P2]].
  split; [reflexivity | split; [exact X|]].
  exists draft_text, refined_text. now repeat split.
Qed.

Lemma successful_answer_chains_the_passes_witness :
  exists response,
    generate_chapters sample_world
      (mkVideoRequest "https://www.youtube.com/watch?v=abc" None) = Ok response /\
    extract_video_id "https://www.youtube.com/watch?v=abc" = Ok (video_id response).
Proof.
  destruct (generate_chapters sample_world
              (mkVideoRequest "https://www.youtube.com/watch?v=abc" None))
    as [response|e] eqn:G; [|vm_compute in G; discriminate].
  exists response. split; [reflexivity|].
  exact (proj1 (proj2 (successful_answer_chains_the_passes _ _ _ G))).
Defined.

(** X13.  When the fetch succeeds and the model call of the draft pass
    fails, the client receives status 500 with only a detail, built from the
    text of that failure; the fetched transcript is not sent and the answer
    does not depend on what the refine pass would have given. *)
Theorem draft_failure_answers_500 :
  forall (w : World) (request : VideoRequest) (transcript : list Entry)
         (detected : string) (cause : exn),
    fetch_transcript w (url request) (language request) = Ok (transcript, detected) ->
    generate_content w draft_config (draft_prompt transcript) = Raise cause ->
    post_generate_chapters w request
    = mkHttpResponse 500
        (DetailBody
           ("An unexpected error occurred: "
            ++ http_exception_str w 500
                 ("Error processing with AI: "
                  ++ http_exception_str w 500
                       ("Error generating chapters with AI: "
                        ++ exn_str (http_exception_str w) cause)))).
Proof.
  intros w request transcript detected cause F G.
  assert (D : generate_chapters_with_gemini w transcript
              = Raise (HTTPException 500
                         ("Error generating chapters with AI: "
                          ++ exn_str (http_exception_str w) cause))).
  { unfold generate_chapters_with_gemini. rewrite G. reflexivity. }
  unfold post_generate_chapters.
  now rewrite (FetchMore.generate_chapters_draft_failed w request _ _ _ F D).
Qed.

Lemma draft_failure_answers_500_witness :
  post_generate_chapters draft_fails_world
    (mkVideoRequest "https://www.youtube.com/watch?v=abc" None)
  = mkHttpResponse 500
      (DetailBody
         "An unexpected error occurred: 500: Error processing with AI: 500: Error generating chapters with AI: quota exceeded").
Proof.
  exact (draft_failure_answers_500 draft_fails_world
           (mkVideoRequest "https://www.youtube.com/watch?v=abc" None)
           [ mkEntry "00:00" "hello" (Finite 0) (Finite (5 # 2));
             mkEntry "01:05" "world" (Finite (65 # 1)) (Finite 4) ]
           "en" (ExternalError false "quota exceeded") eq_refl eq_refl).
Defined.

(** X14.  Whatever the model answers, the chapters a pass returns are no
    more than the lines of the answer, and each has a timestamp that
    contains a colon and no [" - "], while neither timestamp nor title
    contains a line feed or begins or ends with whitespace. *)
Theorem parsed_chapters_are_clean :
  forall (response_text : string) (chapters : list Chapter),
    parse_draft response_text = Ok chapters \/
    parse_refined response_text = Ok chapters ->
    (List.length chapters <= List.length (response_lines response_text))%nat /\
    Forall (fun c =>
              occurs ":" (timestamp c) /\ ~ occurs " - " (timestamp c) /\
              ~ occurs (String "010"%char "") (timestamp c) /\
              ~ occurs (String "010"%char "") (title c) /\
              first_ok (timestamp c) /\ last_ok (timestamp c) /\
              first_ok (title c) /\ last_ok (title c)) chapters.
Proof.
  intros response_text chapters H.
  assert (P : parse_draft response_text = Ok chapters).
  { destruct H as [H | H]; [exact H|].
    now rewrite <- ParserFacts.parse_refined_parse_draft. }
  destruct (ParserFacts.parse_draft_spec response_text) as [cs [E R]].
  rewrite P in E. injection E as <-.
  apply ParserMore.chapters_of_lines_shape; [|exact R].
  apply StrFacts.split_pieces. discriminate.
Qed.

Lemma parsed_chapters_are_clean_witness :
  (List.length [mkChapter "02:15" "Setup - and Installation"]
   <= List.length (response_lines "  02:15  -  Setup - and Installation  "))%nat.
Proof.
  exact (proj1 (parsed_chapters_are_clean
                  "  02:15  -  Setup - and Installation  "
                  [mkChapter "02:15" "Setup - and Installation"]
                  (or_introl eq_refl))).
Defined.

(** X15.  The draft chapters as the refine prompt writes them, one line
    ["timestamp - title"] each, read back as themselves through either
    parser when every chapter is well formed. *)
Theorem formatted_chapters_read_back :
  forall chapters : list Chapter,
    Forall well_formed chapters ->
    parse_draft (initial_chapters_formatted chapters) = Ok chapters /\
    parse_refined (initial_chapters_formatted chapters) = Ok chapters.
Proof.
  intros chapters H.
  pose proof (ParserMore.parse_draft_formatted chapters H) as P.
  split; [exact P|]. now rewrite ParserFacts.parse_refined_parse_draft.
Qed.

Lemma formatted_chapters_read_back_witness :
  parse_draft
    (initial_chapters_formatted
       [mkChapter "00:00" "Introduction"; mkChapter "01:05" "Setup - part two"])
  = Ok [mkChapter "00:00" "Introduction"; mkChapter "01:05" "Setup - part two"].
Proof.
  refine (proj1 (formatted_chapters_read_back _ _)).
  repeat constructor;
    try (apply StrFacts.contains_occurs; reflexivity);
    try (apply StrFacts.contains_false; reflexivity);
    try discriminate.
Defined.

(** X16.  Nothing of the transcript is cut from the prompts: the line
    ["[time] text"] of every entry occurs in the draft prompt and in the
    refine prompt, and the line ["timestamp - title"] of every draft chapter
    occurs in the refine prompt. *)
Theorem prompts_carry_everything :
  forall (transcript : list Entry) (draft : list Chapter),
    (forall entry,
        In entry transcript ->
        occurs ("[" ++ time entry ++ "] " ++ text entry) (draft_prompt transcript) /\
        occurs ("[" ++ time entry ++ "] " ++ text entry)
          (refine_prompt draft transcript)) /\
    (forall chapter,
        In chapter draft ->
        occurs (timestamp chapter ++ " - " ++ title chapter)
          (refine_prompt draft transcript)).
Proof.
  intros transcript draft. split.
  - intros entry I.
    assert (O : occurs ("[" ++ time entry ++ "] " ++ text entry)
                  (transcript_with_timestamps transcript)).
    { unfold transcript_with_timestamps. apply ParserMore.occurs_join.
      apply (in_map (fun entry => "[" ++ time entry ++ "] " ++ text entry)). exact I. }
    split.
    + unfold draft_prompt.
      match goal with |- occurs _ (?a ++ _ ++ ?b) => generalize a, b end.
      intros a b. now apply ParserMore.occurs_inside.
    + unfold refine_prompt.
      match goal with
      | |- occurs _ (?a ++ ?f ++ ?b ++ _ ++ ?c) => generalize a, f, b, c
      end.
      intros a f b c. rewrite <- (StrFacts.append_assoc f), <- (StrFacts.append_assoc a).
      now apply ParserMore.occurs_inside.
  - intros chapter I.
    assert (O : occurs (timestamp chapter ++ " - " ++ title chapter)
                  (initial_chapters_formatted draft)).
    { unfold initial_chapters_formatted. apply ParserMore.occurs_join.
      apply (in_map (fun chapter => timestamp chapter ++ " - " ++ title chapter)).
      exact I. }
    unfold refine_prompt.
    match goal with |- occurs _ (?a ++ _ ++ ?b) => generalize a, b end.
    intros a b. now apply ParserMore.occurs_inside.
Qed.

Lemma prompts_carry_everything_witness :
  occurs "[01:05] world"
    (draft_prompt [ mkEntry "00:00" "hello" (Finite 0) (Finite (5 # 2));
                    mkEntry "01:05" "world" (Finite (65 # 1)) (Finite 4) ]) /\
  occurs "00:00 - Introduction"
    (refine_prompt [mkChapter "00:00" "Introduction"]
       [ mkEntry "00:00" "hello" (Finite 0) (Finite (5 # 2));
         mkEntry "01:05" "world" (Finite (65 # 1)) (Finite 4) ]).
Proof.
  destruct (prompts_carry_everything
              [ mkEntry "00:00" "hello" (Finite 0) (Finite (5 # 2));
                mkEntry "01:05" "world" (Finite (65 # 1)) (Finite 4) ]
              [mkChapter "00:00" "Introduction"]) as [E C].
  split.
  - exact (proj1 (E (mkEntry "01:05" "world" (Finite (65 # 1)) (Finite 4))
                    (or_intror (or_introl eq_refl)))).
  - exact (C (mkChapter "00:00" "Introduction") (or_introl eq_refl)).
Defined.
